(** * label-sheet: quadrant layout, fit-to-box, page selection, presets

    A shallow embedding of the Python sources of label-sheet
    (processor.py, layout.py, core.py, config.py) and the properties its
    specification states about them.

    Conventions of the embedding:
    - a Python exception is a value of [exn]; a call that can raise
      returns [result A];
    - Python [float] arithmetic is the interface [PyNum]; its instance
      [float_PyNum] is IEEE-754 binary64 (what CPython computes with),
      specified by the standard library's [SpecFloat];
    - the file system, the reportlab canvas and the temporary-name counter
      are the explicit state [world] of the monad [io];
    - Pillow's [Image.rotate] is the interface [Pillow]: the sources call
      it, they do not define it. *)

From Stdlib Require Import ZArith Lia String Ascii List Bool.
From Stdlib Require Import PrimFloat Uint63 SpecFloat FloatOps FloatAxioms.
From Stdlib Require Import Reals Lra.
From stdpp Require Import base option list gmap strings.

Local Open Scope string_scope.
Local Open Scope Z_scope.

(* Decimal literals such as 0.8 denote the nearest binary64 value, as in
   Python. *)
Set Warnings "-inexact-float".

(** ** Python run time *)

Module Py.

(** What a [ValueError] says: those of the sources, and the one Pillow's
    JPEG writer raises for an empty image. *)
Inductive message :=
  | PdfHasNoPages
  | NoSecondLastPage
  | PageOutOfRange (page_num : Z) (pages : nat)
  | InvalidPageSpec (page_spec : string) (pages : nat)
  | InvalidLiteral (s : string)
  | PresetNotFound (name : string)
  | CannotWriteEmptyImage.

Inductive exn :=
  | ZeroDivisionError
  | ValueError (m : message)
  | KeyError (k : string)
  | IndexError
  | AttributeError
  | FileNotFoundError
  | OSError.

Inductive result (A : Type) :=
  | Ok (a : A)
  | Raise (e : exn).
Arguments Ok {A} a.
Arguments Raise {A} e.

#[global] Instance result_ret : MRet result := fun A a => Ok a.
#[global] Instance result_bind : MBind result := fun A B f m =>
  match m with
  | Ok a => f a
  | Raise e => Raise e
  end.

Definition is_Ok {A} (r : result A) : bool :=
  match r with Ok _ => true | Raise _ => false end.

(** [try: body except ValueError: handler] *)
Definition except_ValueError {A} (body : result A) (handler : result A) : result A :=
  match body with
  | Raise (ValueError _) => handler
  | r => r
  end.

(** [l[i]] on a list, negative [i] counting from the end. *)
Definition getitem {A} (l : list A) (i : Z) : result A :=
  let n := Z.of_nat (length l) in
  let j := if i <? 0 then n + i else i in
  if (j <? 0) || (n <=? j) then Raise IndexError
  else match l !! Z.to_nat j with
       | Some a => Ok a
       | None => Raise IndexError
       end.

(** *** [str.strip()] on ASCII: the white space of [str.isspace], which
    counts the separators 28 to 31. *)

Definition is_space (c : ascii) : bool :=
  let n := nat_of_ascii c in
  ((9 <=? n) && (n <=? 13) || (28 <=? n) && (n <=? 32))%nat.

Definition digit_value (c : ascii) : option Z :=
  let n := nat_of_ascii c in
  if ((48 <=? n) && (n <=? 57))%nat then Some (Z.of_nat n - 48) else None.

Fixpoint lstrip (s : string) : string :=
  match s with
  | String c s' => if is_space c then lstrip s' else s
  | EmptyString => EmptyString
  end.

Fixpoint rstrip (s : string) : string :=
  match s with
  | String c s' =>
      match rstrip s' with
      | EmptyString => if is_space c then EmptyString else String c EmptyString
      | r => String c r
      end
  | EmptyString => EmptyString
  end.

Definition strip (s : string) : string := rstrip (lstrip s).

(** *** [int(s)] on a string: the ASCII fragment of CPython's rule.
    Surrounding white space is dropped, one sign is allowed, and the digits
    may be separated by single underscores. On an ASCII string the white
    space [int] drops is that of C's [isspace]: tab to carriage return and
    the space, not the separators 28 to 31. *)

Definition is_c_space (c : ascii) : bool :=
  let n := nat_of_ascii c in
  ((9 <=? n) && (n <=? 13) || (n =? 32))%nat.

Fixpoint c_lstrip (s : string) : string :=
  match s with
  | String c s' => if is_c_space c then c_lstrip s' else s
  | EmptyString => EmptyString
  end.

Fixpoint c_rstrip (s : string) : string :=
  match s with
  | String c s' =>
      match c_rstrip s' with
      | EmptyString => if is_c_space c then EmptyString else String c EmptyString
      | r => String c r
      end
  | EmptyString => EmptyString
  end.

Definition c_strip (s : string) : string := c_rstrip (c_lstrip s).

(** Digits after the first one; [acc] is the value read so far. *)
Fixpoint more_digits (acc : Z) (s : string) : option Z :=
  match s with
  | EmptyString => Some acc
  | String "_" (String c s') =>
      match digit_value c with
      | Some d => more_digits (10 * acc + d) s'
      | None => None
      end
  | String c s' =>
      match digit_value c with
      | Some d => more_digits (10 * acc + d) s'
      | None => None
      end
  end.

Definition digits (s : string) : option Z :=
  match s with
  | String c s' =>
      match digit_value c with
      | Some d => more_digits d s'
      | None => None
      end
  | EmptyString => None
  end.

Definition int (s : string) : result Z :=
  let body := c_strip s in
  let parsed :=
    match body with
    | String "-" r => Z.opp <$> digits r
    | String "+" r => digits r
    | _ => digits body
    end in
  match parsed with
  | Some z => Ok z
  | None => Raise (ValueError (InvalidLiteral s))
  end.

(** *** Python [float] arithmetic *)

Class PyNum (F : Type) := {
  of_Z : Z -> F;
  add : F -> F -> F;
  sub : F -> F -> F;
  mul : F -> F -> F;
  div : F -> F -> F;
  gtb : F -> F -> bool;
  is_zero : F -> bool
}.

(** [x / y]: raises [ZeroDivisionError] on a zero divisor. *)
Definition truediv {F} `{PyNum F} (x y : F) : result F :=
  if is_zero y then Raise ZeroDivisionError else Ok (div x y).

(** Conversion of a Python [int] to binary64 (exact below 2^53, rounded to
    nearest below 2^63; no image dimension or page constant is larger). *)
Definition float_of_Z (z : Z) : float :=
  match z with
  | Z0 => PrimFloat.zero
  | Zpos _ => PrimFloat.of_uint63 (Uint63.of_Z z)
  | Zneg _ => PrimFloat.opp (PrimFloat.of_uint63 (Uint63.of_Z (- z)))
  end.

#[global] Instance float_PyNum : PyNum float := {|
  of_Z := float_of_Z;
  add := PrimFloat.add;
  sub := PrimFloat.sub;
  mul := PrimFloat.mul;
  div := PrimFloat.div;
  gtb := fun x y => PrimFloat.ltb y x;
  is_zero := fun x => PrimFloat.eqb x PrimFloat.zero
|}.

End Py.

Import Py.

(** ** Pillow images *)

Inductive mode := ModeL | ModeRGB | ModeRGBA | ModeP | ModeCMYK.

(** A raster image: its pixel content (an opaque handle), its size in
    pixels and its colour mode. *)
Record Image := {
  pixels : N;
  size : Z * Z;
  img_mode : mode
}.

Definition width (i : Image) : Z := fst (size i).
Definition height (i : Image) : Z := snd (size i).

(** [Image.rotate(angle, expand=...)], as the sources call it. *)
Class Pillow := {
  rotate : Image -> Z -> bool -> Image
}.

(** The bounding box of a [width i] x [height i] rectangle turned by
    [angle] degrees, and an image [r] large enough to hold it: no corner
    of the turned image falls outside [r]. *)
Definition radians (angle : Z) : R := (IZR angle * PI / 180)%R.

Definition bounding_width (i : Image) (angle : Z) : R :=
  (IZR (width i) * Rabs (cos (radians angle))
   + IZR (height i) * Rabs (sin (radians angle)))%R.

Definition bounding_height (i : Image) (angle : Z) : R :=
  (IZR (width i) * Rabs (sin (radians angle))
   + IZR (height i) * Rabs (cos (radians angle)))%R.

Definition holds_rotation (i : Image) (angle : Z) (r : Image) : Prop :=
  (bounding_width i angle <= IZR (width r))%R /\
  (bounding_height i angle <= IZR (height r))%R.

(** ** processor.py *)

Module ImageProcessor.
Section ImageProcessor.
Context {F : Type} `{PyNum F} `{Pillow}.

Definition rotate_image (image : Image) (rotation : Z) : Image :=
  if rotation =? 0 then image
  else rotate image rotation true.

Definition fit_to_box (image : Image) (max_width max_height : F)
  : result (Image * F * F) :=
  let '(img_width, img_height) := size image in
  img_aspect ← truediv (of_Z img_width) (of_Z img_height);
  box_aspect ← truediv max_width max_height;
  if gtb img_aspect box_aspect then
    let new_width := max_width in
    new_height ← truediv max_width img_aspect;
    mret (image, new_width, new_height)
  else
    let new_height := max_height in
    let new_width := mul max_height img_aspect in
    mret (image, new_width, new_height).

End ImageProcessor.
End ImageProcessor.

(** ** Binary64 numbers as real numbers

    What is needed to say how [SpecFloat]'s division rounds: a finite
    number with mantissa [m] and exponent [e] stands for [m * 2 ^ e]. *)

Definition bpow (e : Z) : R := powerRZ 2 e.

(** [x] lies at mantissa [m] (location exact) or strictly between [m] and
    [m + 1]. *)
Definition brackets (m : Z) (l : location) (x : R) : Prop :=
  match l with
  | loc_Exact => x = IZR m
  | loc_Inexact _ => (IZR m < x < IZR m + 1)%R
  end.

(** [N] is [y] rounded to a neighbouring integer. *)
Definition rounded (N : Z) (y : R) : Prop :=
  (forall k : Z, (y <= IZR k)%R -> N <= k) /\
  (forall k : Z, (IZR k <= y)%R -> k <= N).

(** Positive numbers, plus infinity included. *)
Definition SFpositive (x : spec_float) : bool :=
  match x with
  | S754_finite false _ _ | S754_infinity false => true
  | _ => false
  end.

(** What [binary_round_aux] makes of the integer [N] at exponent [e]. *)
Definition packs (sx : bool) (N e : Z) (r : spec_float) : Prop :=
  (N = 0 /\ r = S754_zero sx) \/
  (0 < N /\ exists M e',
      (IZR (Zpos M) * bpow e' = IZR N * bpow e)%R /\
      canonical_mantissa prec emax M e' = true /\
      r = if e' <=? emax - prec then S754_finite sx M e' else S754_infinity sx).

(** ** The world outside the interpreter: files, the canvas, faults *)

(** A file name: a temporary file made by [tempfile] (they are unique, so
    a counter names them) or a path chosen by the caller. *)
Inductive path :=
  | Tmp (n : nat)
  | User (name : string).

#[global] Instance path_eq_dec : EqDecision path.
Proof. solve_decision. Defined.

#[global] Instance path_countable : Countable path.
Proof.
  refine (inj_countable'
            (fun p => match p with Tmp n => inl n | User s => inr s end)
            (fun x => match x with inl n => Tmp n | inr s => User s end) _).
  by intros [].
Defined.

Section World.
Context {F : Type}.

(** What reportlab records on the page, in drawing order. [DrawImage]
    carries the raster it read from [file] when it was called. *)
Inductive canvas_op :=
  | DrawImage (file : path) (embedded : Image) (x y w h : F)
              (preserveAspectRatio : bool)
  | SetStrokeColorRGB (r g b : F)
  | SetLineWidth (w : F)
  | Line (x1 y1 x2 y2 : F).

Record Canvas := {
  filename : path;
  pagesize : F * F;
  ops : list canvas_op
}.

Inductive file :=
  | EmptyFile
  | Jpeg (img : Image)
  | Pdf (page : F * F) (content : list canvas_op).

(** The failures the environment can inject into the four library calls
    that touch the disk. *)
Record faults := {
  write_fails : path -> bool;
  read_fails : path -> bool;
  remove_fails : path -> bool
}.

Record world := {
  fs : gmap path file;
  canvas : Canvas;
  next_tmp : nat;
  env : faults
}.

Definition io (A : Type) : Type := world -> result A * world.

#[global] Instance io_ret : MRet io := fun A a w => (Ok a, w).
#[global] Instance io_bind : MBind io := fun A B f m w =>
  match m w with
  | (Ok a, w') => f a w'
  | (Raise e, w') => (Raise e, w')
  end.

Definition lift {A} (r : result A) : io A := fun w => (r, w).

Definition set_fs (w : world) (fs' : gmap path file) : world :=
  {| fs := fs'; canvas := canvas w; next_tmp := next_tmp w; env := env w |}.

Definition set_canvas (w : world) (c : Canvas) : world :=
  {| fs := fs w; canvas := c; next_tmp := next_tmp w; env := env w |}.

(** [tempfile.NamedTemporaryFile(suffix='.jpg', delete=False).name]: a new,
    empty file under a name nobody used before. *)
Definition NamedTemporaryFile : io path := fun w =>
  let name := Tmp (next_tmp w) in
  (Ok name,
   {| fs := <[name := EmptyFile]> (fs w); canvas := canvas w;
      next_tmp := S (next_tmp w); env := env w |}).

(** The colour modes Pillow's JPEG encoder writes. *)
Definition jpeg_mode (m : mode) : bool :=
  match m with
  | ModeL | ModeRGB | ModeCMYK => true
  | ModeRGBA | ModeP => false
  end.

(** An image without pixels. *)
Definition empty_image (i : Image) : bool :=
  (width i =? 0) || (height i =? 0).

(** [image.save(temp_file, 'JPEG', quality=95)]: Pillow opens the file for
    writing, then its JPEG writer refuses an empty image with a
    [ValueError] and a mode it cannot encode with an [OSError]. *)
Definition image_save (image : Image) (temp_file : path) : io unit := fun w =>
  if write_fails (env w) temp_file then (Raise OSError, w)
  else if empty_image image
       then (Raise (ValueError CannotWriteEmptyImage), w)
  else if negb (jpeg_mode (img_mode image)) then (Raise OSError, w)
  else (Ok tt, set_fs w (<[temp_file := Jpeg image]> (fs w))).

(** [canvas.Canvas(output_path, pagesize=...)]: nothing is written yet. *)
Definition new_Canvas (output_path : path) (page : F * F) : io unit := fun w =>
  (Ok tt, set_canvas w {| filename := output_path; pagesize := page; ops := [] |}).

Definition record_op (o : canvas_op) : io unit := fun w =>
  let c := canvas w in
  (Ok tt, set_canvas w {| filename := filename c; pagesize := pagesize c;
                          ops := (ops c ++ [o])%list |}).

(** [c.drawImage(file, x, y, width=w, height=h, preserveAspectRatio=p)]:
    reads the raster from the file and places it. *)
Definition drawImage (f : path) (x y w h : F) (p : bool) : io unit := fun wd =>
  if read_fails (env wd) f then (Raise OSError, wd)
  else match fs wd !! f with
       | Some (Jpeg img) => record_op (DrawImage f img x y w h p) wd
       | _ => (Raise OSError, wd)
       end.

(** [c.save()]: writes the page to the canvas's file. *)
Definition canvas_save : io unit := fun w =>
  let c := canvas w in
  if write_fails (env w) (filename c) then (Raise OSError, w)
  else (Ok tt, set_fs w (<[filename c := Pdf (pagesize c) (ops c)]> (fs w))).

(** [os.remove(p)] *)
Definition os_remove (p : path) : io unit := fun w =>
  if remove_fails (env w) p then (Raise OSError, w)
  else match fs w !! p with
       | Some _ => (Ok tt, set_fs w (delete p (fs w)))
       | None => (Raise FileNotFoundError, w)
       end.

(** [try: body except: pass] *)
Definition try_pass (body : io unit) : io unit := fun w =>
  match body w with
  | (Ok _, w') => (Ok tt, w')
  | (Raise _, w') => (Ok tt, w')
  end.

End World.
Arguments canvas_op : clear implicits.
Arguments Canvas : clear implicits.
Arguments file : clear implicits.
Arguments world : clear implicits.
Arguments io : clear implicits.

(** ** layout.py *)

Record QuadrantConfig := {
  image : option Image;
  rotation : Z
}.

Module LayoutEngine.
Section LayoutEngine.
Context {F : Type} `{PyNum F} `{Pillow}.

Record LayoutEngine := {
  margin : F;
  show_grid : bool;
  page_width : F;
  page_height : F;
  quadrant_width : F;
  quadrant_height : F
}.

(** [reportlab.lib.pagesizes.letter]: 8.5in x 11in at 72 points an inch. *)
Definition letter : F * F := (of_Z 612, of_Z 792).

(** The constructor has no [raise]: it returns an engine for every
    argument. *)
Definition __init__ (margin_inches : F) (show_grid : bool) : result LayoutEngine :=
  let margin := mul margin_inches (of_Z 72) in
  let '(page_width, page_height) := letter in
  let quadrant_width := div page_width (of_Z 2) in
  let quadrant_height := div page_height (of_Z 2) in
  mret {| margin := margin; show_grid := show_grid;
          page_width := page_width; page_height := page_height;
          quadrant_width := quadrant_width;
          quadrant_height := quadrant_height |}.

Definition _draw_quadrant (self : LayoutEngine) (config : QuadrantConfig)
    (quad_x quad_y : Z) : io F path :=
  source ← lift (match image config with
                 | Some i => Ok i
                 | None => Raise AttributeError
                 end);
  let image := ImageProcessor.rotate_image source (rotation config) in
  let available_width := sub (quadrant_width self) (mul (of_Z 2) (margin self)) in
  let available_height := sub (quadrant_height self) (mul (of_Z 2) (margin self)) in
  '(_, draw_width, draw_height) ←
    lift (ImageProcessor.fit_to_box image available_width available_height);
  let x_offset :=
    add (add (mul (of_Z quad_x) (quadrant_width self)) (margin self))
        (div (sub available_width draw_width) (of_Z 2)) in
  let y_offset :=
    add (add (mul (of_Z quad_y) (quadrant_height self)) (margin self))
        (div (sub available_height draw_height) (of_Z 2)) in
  temp_file ← NamedTemporaryFile;
  _ ← image_save image temp_file;
  _ ← drawImage temp_file x_offset y_offset draw_width draw_height true;
  mret temp_file.

(** [c08] is the literal [0.8]: the quotient 8 / 10, rounded once. *)
Definition _draw_grid (self : LayoutEngine) : io F unit :=
  let c08 := div (of_Z 8) (of_Z 10) in
  _ ← record_op (SetStrokeColorRGB c08 c08 c08);
  _ ← record_op (SetLineWidth (of_Z 1));
  _ ← record_op (Line (div (page_width self) (of_Z 2)) (of_Z 0)
                      (div (page_width self) (of_Z 2)) (page_height self));
  record_op (Line (of_Z 0) (div (page_height self) (of_Z 2))
                  (page_width self) (div (page_height self) (of_Z 2))).

(** [config and config.image] *)
Definition occupied (config : option QuadrantConfig) : bool :=
  match config with
  | Some c => bool_decide (is_Some (image c))
  | None => false
  end.

(** The [for config, quad_x, quad_y in quadrants] loop. A temporary file
    name is a non-empty string, so [if temp_file] always appends it. *)
Fixpoint draw_quadrants (self : LayoutEngine)
    (quadrants : list (option QuadrantConfig * Z * Z))
    (temp_files : list path) : io F (list path) :=
  match quadrants with
  | [] => mret temp_files
  | (config, quad_x, quad_y) :: rest =>
      temp_files' ←
        match config with
        | Some c =>
            if occupied config then
              temp_file ← _draw_quadrant self c quad_x quad_y;
              mret (temp_files ++ [temp_file])%list
            else mret temp_files
        | None => mret temp_files
        end;
      draw_quadrants self rest temp_files'
  end.

(** The [for temp_file in temp_files] loop. *)
Fixpoint remove_temp_files (temp_files : list path) : io F unit :=
  match temp_files with
  | [] => mret tt
  | temp_file :: rest =>
      _ ← try_pass (os_remove temp_file);
      remove_temp_files rest
  end.

Definition quadrants (q1 q2 q3 q4 : option QuadrantConfig)
  : list (option QuadrantConfig * Z * Z) :=
  [ (q1, 0, 1); (q2, 1, 1); (q3, 0, 0); (q4, 1, 0) ].

Definition generate_pdf (self : LayoutEngine) (output_path : string)
    (q1 q2 q3 q4 : option QuadrantConfig) : io F unit :=
  _ ← new_Canvas (User output_path) letter;
  temp_files ← draw_quadrants self (quadrants q1 q2 q3 q4) [];
  _ ← (if show_grid self then _draw_grid self else mret tt);
  _ ← canvas_save;
  remove_temp_files temp_files.

(** The geometry [_draw_quadrant] computes before it touches the disk, by
    name: its [available_width], [available_height], [x_offset] and
    [y_offset] as functions of what they depend on. *)
Definition available_width (self : LayoutEngine) : F :=
  sub (quadrant_width self) (mul (of_Z 2) (margin self)).

Definition available_height (self : LayoutEngine) : F :=
  sub (quadrant_height self) (mul (of_Z 2) (margin self)).

Definition x_offset (self : LayoutEngine) (quad_x : Z) (draw_width : F) : F :=
  add (add (mul (of_Z quad_x) (quadrant_width self)) (margin self))
      (div (sub (available_width self) draw_width) (of_Z 2)).

Definition y_offset (self : LayoutEngine) (quad_y : Z) (draw_height : F) : F :=
  add (add (mul (of_Z quad_y) (quadrant_height self)) (margin self))
      (div (sub (available_height self) draw_height) (of_Z 2)).

(** What one occupied quadrant puts on the page: the rotated raster, where
    and how large. It reads the engine, the quadrant's own configuration
    and the quadrant's own coordinates, nothing else. *)
Record placement := {
  raster : Image;
  at_x : F;
  at_y : F;
  draw_width : F;
  draw_height : F
}.

Definition place (self : LayoutEngine) (config : QuadrantConfig)
    (quad_x quad_y : Z) : result placement :=
  source ← match image config with
           | Some i => Ok i
           | None => Raise AttributeError
           end;
  let rotated := ImageProcessor.rotate_image source (rotation config) in
  '(_, w, h) ← ImageProcessor.fit_to_box rotated (available_width self)
                                         (available_height self);
  mret {| raster := rotated;
          at_x := x_offset self quad_x w; at_y := y_offset self quad_y h;
          draw_width := w; draw_height := h |}.

Definition placed (o : canvas_op F) : option placement :=
  match o with
  | DrawImage _ img x y w h _ =>
      Some {| raster := img; at_x := x; at_y := y;
              draw_width := w; draw_height := h |}
  | _ => None
  end.

(** The quadrants the loop draws, in order, and the position of a
    quadrant's image among the images drawn. *)
Fixpoint drawn_quadrants (qs : list (option QuadrantConfig * Z * Z))
  : list (QuadrantConfig * Z * Z) :=
  match qs with
  | [] => []
  | (Some c, quad_x, quad_y) :: rest =>
      if occupied (Some c) then (c, quad_x, quad_y) :: drawn_quadrants rest
      else drawn_quadrants rest
  | (None, _, _) :: rest => drawn_quadrants rest
  end.

Definition slot (qs : list (option QuadrantConfig * Z * Z)) (k : nat) : nat :=
  length (drawn_quadrants (take k qs)).

(** [o] is the image of quadrant [q]: a [DrawImage] with [q]'s placement. *)
Definition draws_quadrant (self : LayoutEngine) (q : QuadrantConfig * Z * Z)
    (o : canvas_op F) : Prop :=
  exists p temp_file,
    place self q.1.1 q.1.2 q.2 = Ok p /\
    o = DrawImage temp_file (raster p) (at_x p) (at_y p)
                  (draw_width p) (draw_height p) true.

(** The two grid lines with their stroke settings, as [_draw_grid] issues
    them. *)
Definition grid_ops (self : LayoutEngine) : list (canvas_op F) :=
  let c08 := div (of_Z 8) (of_Z 10) in
  [ SetStrokeColorRGB c08 c08 c08;
    SetLineWidth (of_Z 1);
    Line (div (page_width self) (of_Z 2)) (of_Z 0)
         (div (page_width self) (of_Z 2)) (page_height self);
    Line (of_Z 0) (div (page_height self) (of_Z 2))
         (page_width self) (div (page_height self) (of_Z 2)) ].

End LayoutEngine.
Arguments LayoutEngine : clear implicits.
Arguments placement : clear implicits.
End LayoutEngine.

(** ** core.py *)

Module InputHandler.
Section InputHandler.
Context {A : Type}.

(** [pdf_exists] is [pdf_path.exists()] and [images] is what
    [convert_from_path(str(pdf_path), dpi=dpi)] returned: one raster per
    page, in page order. *)
Definition load_pdf_page (pdf_exists : bool) (images : list A)
    (page_spec : string) : result A :=
  if negb pdf_exists then Raise FileNotFoundError
  else
    let len := Z.of_nat (length images) in
    match images with
    | [] => Raise (ValueError PdfHasNoPages)
    | _ =>
        if String.eqb page_spec "last" then getitem images (-1)
        else if String.eqb page_spec "second-last" then
          if len <? 2 then Raise (ValueError NoSecondLastPage)
          else getitem images (-2)
        else
          except_ValueError
            (page_num ← int page_spec;
             let page_index :=
               if page_num =? 0 then 0
               else if 0 <? page_num then page_num - 1
               else len + page_num in
             if (page_index <? 0) || (len <=? page_index) then
               Raise (ValueError (PageOutOfRange page_num (length images)))
             else getitem images page_index)
            (Raise (ValueError (InvalidPageSpec page_spec (length images))))
    end.

End InputHandler.
End InputHandler.

(** ** config.py *)

(** A YAML scalar of a quadrant entry. *)
Inductive value :=
  | VStr (s : string)
  | VInt (z : Z).

#[global] Instance value_eq_dec : EqDecision value.
Proof. solve_decision. Defined.

(** A key of a [quadrants] mapping: YAML gives integers or strings. *)
Inductive key :=
  | KInt (z : Z)
  | KStr (s : string).

(** A preset dictionary: its two optional keys. [quadrants] keeps the
    insertion order of the mapping, which is the order of iteration. *)
Record preset := {
  description : option string;
  quadrants : option (list (key * gmap string value))
}.

Module ConfigManager.

Definition quadrant (source page : string) (rotation : Z) : gmap string value :=
  {[ "source" := VStr source; "page" := VStr page; "rotation" := VInt rotation ]}.

(** The built-in table; a string is its UTF-8 bytes. *)
Definition BUILTIN_PRESETS : gmap string preset :=
  {[ "standard" :=
       {| description := Some "UPS label (Q1,Q2) + notes (Q3 rotated -90°)";
          quadrants := Some [ (KInt 1, quadrant "{input}" "last" 0);
                              (KInt 2, quadrant "{input}" "last" 0);
                              (KInt 3, quadrant "{input}" "second-last" (-90)) ] |};
     "label-only-q1-q2" :=
       {| description := Some "Just the shipping label in Q1 and Q2";
          quadrants := Some [ (KInt 1, quadrant "{input}" "last" 0);
                              (KInt 2, quadrant "{input}" "last" 0) ] |};
     "notes-q4" :=
       {| description := Some "Notes in bottom-right quadrant";
          quadrants := Some [ (KInt 4, quadrant "{input}" "second-last" 0) ] |};
     "notes-q3" :=
       {| description := Some "Notes in bottom-left quadrant, rotated -90°";
          quadrants := Some [ (KInt 3, quadrant "{input}" "second-last" (-90)) ] |}
  ]}.

Record ConfigManager := {
  _user_presets : gmap string preset
}.

Definition get_preset (self : ConfigManager) (name : string) : option preset :=
  match _user_presets self !! name with
  | Some p => Some p
  | None => BUILTIN_PRESETS !! name
  end.

(** [not preset]: [None], or a dictionary without any key. *)
Definition not_preset (p : option preset) : bool :=
  match p with
  | None => true
  | Some {| description := None; quadrants := None |} => true
  | Some _ => false
  end.

(** [int(quad_num)] on a key. *)
Definition int_key (k : key) : result Z :=
  match k with
  | KInt z => Ok z
  | KStr s => int s
  end.

(** [overrides and quad_num in overrides] *)
Definition overridden (overrides : option (gmap Z (gmap string value)))
    (quad_num : Z) : bool :=
  match overrides with
  | Some o => negb (bool_decide (o = ∅)) && bool_decide (is_Some (o !! quad_num))
  | None => false
  end.

(** The [for quad_num, config in quadrants.items()] loop; [res] is the
    dictionary [result] built so far. *)
Fixpoint resolve_quadrants (input_file : string)
    (overrides : option (gmap Z (gmap string value)))
    (items : list (key * gmap string value))
    (res : gmap Z (gmap string value)) : result (gmap Z (gmap string value)) :=
  match items with
  | [] => Ok res
  | (quad_num, config) :: rest =>
      quad_num ← int_key quad_num;
      if overridden overrides quad_num then
        resolve_quadrants input_file overrides rest res
      else
        source ← match config !! "source" with
                 | Some v => Ok v
                 | None => Raise (KeyError "source")
                 end;
        let source :=
          if bool_decide (source = VStr "{input}") then VStr input_file
          else source in
        resolve_quadrants input_file overrides rest
          (<[ quad_num :=
                {[ "source" := source;
                   "page" := default (VStr "last") (config !! "page");
                   "rotation" := default (VInt 0) (config !! "rotation") ]} ]>
             res)
  end.

Definition resolve_preset (self : ConfigManager) (preset_name : string)
    (input_file : string) (overrides : option (gmap Z (gmap string value)))
  : result (gmap Z (gmap string value)) :=
  let preset := get_preset self preset_name in
  if not_preset preset then Raise (ValueError (PresetNotFound preset_name))
  else
    let quadrants := default [] (preset ≫= quadrants) in
    res ← resolve_quadrants input_file overrides quadrants ∅;
    match overrides with
    | Some o => if bool_decide (o = ∅) then Ok res else Ok (o ∪ res)
    | None => Ok res
    end.

(** The entry the loop stores for a preset entry [config] whose ["source"]
    is [source]. *)
Definition resolved_entry (input_file : string) (config : gmap string value)
    (source : value) : gmap string value :=
  {[ "source" := if bool_decide (source = VStr "{input}") then VStr input_file
                 else source;
     "page" := default (VStr "last") (config !! "page");
     "rotation" := default (VInt 0) (config !! "rotation") ]}.

(** The override for a quadrant, if any. *)
Definition override (overrides : option (gmap Z (gmap string value)))
    (quad_num : Z) : option (gmap string value) :=
  o ← overrides; o !! quad_num.

End ConfigManager.

(** ** core.py: the loaders that read files *)

(** An outcome with the exceptions of [E]. *)
Inductive outcome (E A : Type) :=
  | Returns (a : A)
  | Raises (e : E).
Arguments Returns {E A} a.
Arguments Raises {E A} e.

(** [s.split(sep)] for a one-character separator. *)
Fixpoint split_on (sep : ascii) (s : string) : list string :=
  match s with
  | EmptyString => [EmptyString]
  | String c s' =>
      if Ascii.eqb c sep then EmptyString :: split_on sep s'
      else match split_on sep s' with
           | part :: parts => String c part :: parts
           | [] => [String c EmptyString]
           end
  end.

(** [sep in s] *)
Fixpoint has_char (sep : ascii) (s : string) : bool :=
  match s with
  | EmptyString => false
  | String c s' => Ascii.eqb c sep || has_char sep s'
  end.

(** [s.lower()] on ASCII. *)
Definition lower_char (c : ascii) : ascii :=
  let n := nat_of_ascii c in
  if ((65 <=? n) && (n <=? 90))%nat then ascii_of_nat (n + 32) else c.

Fixpoint lower (s : string) : string :=
  match s with
  | EmptyString => EmptyString
  | String c s' => String (lower_char c) (lower s')
  end.

(** [PurePosixPath(p).name]: the last component that is neither empty nor
    a single dot. *)
Definition path_name (p : string) : string :=
  List.last (List.filter (fun c => negb (String.eqb c "" || String.eqb c "."))
                         (split_on "/" p)) "".

(** [name.rfind('.')], counting from [pos]. *)
Fixpoint rfind_dot (s : string) (pos : nat) (found : option nat) : option nat :=
  match s with
  | EmptyString => found
  | String c s' =>
      rfind_dot s' (S pos) (if Ascii.eqb c "." then Some pos else found)
  end.

(** [PurePosixPath(p).suffix]: the name from its last dot on, unless that
    dot is the first or the last character. *)
Definition path_suffix (p : string) : string :=
  let name := path_name p in
  match rfind_dot name 0 None with
  | Some i =>
      if ((0 <? i) && (i <? String.length name - 1))%nat
      then String.substring i (String.length name - i) name
      else ""
  | None => ""
  end.

(** The disk and the two decoders, as the loaders see them: [path_exists]
    is [Path.exists], [convert_from_path] is pdf2image's, [Image_open] is
    [PIL.Image.open] and [convert] is [Image.convert]. *)
Class Disk := {
  path_exists : string -> bool;
  convert_from_path : string -> Z -> result (list Image);
  Image_open : string -> result Image;
  convert : Image -> mode -> Image
}.

Module InputFiles.

(** The two [ValueError]s of [load_image] and [load_input], beside the
    exceptions of [load_pdf_page]. *)
Inductive error :=
  | Builtin (e : exn)
  | FailedToLoadImage (image_path : string) (cause : exn)
  | UnsupportedFileFormat (suffix : string).

Definition is_ValueError (e : error) : bool :=
  match e with
  | Builtin (ValueError _) => true
  | Builtin _ => false
  | FailedToLoadImage _ _ => true
  | UnsupportedFileFormat _ => true
  end.

Definition of_result {A} (r : result A) : outcome error A :=
  match r with
  | Ok a => Returns a
  | Raise e => Raises (Builtin e)
  end.

Section InputFiles.
Context `{Disk}.

(** [load_pdf_page] on a path: the existence test, then the conversion of
    the whole document, then the selection. *)
Definition load_pdf_page (pdf_path : string) (page_spec : string) (dpi : Z)
  : result Image :=
  if negb (path_exists pdf_path) then
    InputHandler.load_pdf_page false [] page_spec
  else
    images ← convert_from_path pdf_path dpi;
    InputHandler.load_pdf_page true images page_spec.

Definition load_image (image_path : string) : outcome error Image :=
  if negb (path_exists image_path) then Raises (Builtin FileNotFoundError)
  else
    match Image_open image_path with
    | Ok img =>
        match img_mode img with
        | ModeRGB | ModeL => Returns img
        | _ => Returns (convert img ModeRGB)
        end
    | Raise e => Raises (FailedToLoadImage image_path e)
    end.

Definition image_suffixes : list string :=
  [".jpg"; ".jpeg"; ".png"; ".heic"; ".heif"; ".bmp"; ".gif"].

Definition load_input (file_path : string) (page_spec : string) (dpi : Z)
  : outcome error Image :=
  let suffix := lower (path_suffix file_path) in
  if String.eqb suffix ".pdf" then
    of_result (load_pdf_page file_path page_spec dpi)
  else if bool_decide (suffix ∈ image_suffixes) then
    load_image file_path
  else Raises (UnsupportedFileFormat suffix).

End InputFiles.
End InputFiles.

(** ** cli.py *)

(** What [resolve_file_path] asks of [os.path] and [pathlib]. *)
Class Paths := {
  expanduser : string -> string;
  is_absolute : string -> bool;
  file_exists : string -> bool;
  resolved : string -> string;
  joinpath : string -> string -> string;
  DEFAULT_DOWNLOADS : string
}.

Module Cli.

Definition parse_input_spec (spec : string) : result (string * string * Z) :=
  let parts := split_on ":" spec in
  let len := Z.of_nat (length parts) in
  file ← getitem parts 0;
  page ← (if 1 <? len then getitem parts 1 else Ok "last");
  rotation ← (if 2 <? len then part ← getitem parts 2; int part else Ok 0);
  mret (file, page, rotation).

Section ResolveFilePath.
Context `{Paths}.

Definition resolve_file_path (file : string) : result string :=
  let file := expanduser (strip file) in
  let path := file in
  let early :=
    if is_absolute path then
      if file_exists path then Some (resolved path)
      else
        let filename := path_name path in
        let downloads_fallback_path := joinpath DEFAULT_DOWNLOADS filename in
        if file_exists downloads_fallback_path
        then Some (resolved downloads_fallback_path)
        else None
    else None in
  match early with
  | Some found => Ok found
  | None =>
      let downloads_path := joinpath DEFAULT_DOWNLOADS file in
      if file_exists downloads_path then Ok (resolved downloads_path)
      else if file_exists path then Ok (resolved path)
      else Raise FileNotFoundError
  end.

End ResolveFilePath.
End Cli.

(** ** config.py: the listing *)

Module Presets.

(** [list_presets]: the built-in descriptions, then the user's over
    them. *)
Definition list_presets (self : ConfigManager.ConfigManager) : gmap string string :=
  let builtin := (fun p => default "" (description p))
                   <$> ConfigManager.BUILTIN_PRESETS in
  let user := (fun p => default "Custom preset" (description p))
                <$> ConfigManager._user_presets self in
  user ∪ builtin.

End Presets.

(** ** Sample data *)

Module Examples.

(** A 7x12 raster: the aspect ratio of the 126x216 box that a 1.25 inch
    margin leaves in a quadrant. *)
Definition image_7x12 : Image :=
  {| pixels := 1; size := (7, 12); img_mode := ModeRGB |}.

Definition image_13x1 : Image :=
  {| pixels := 5; size := (13, 1); img_mode := ModeRGB |}.

Definition image_7x19 : Image :=
  {| pixels := 6; size := (7, 19); img_mode := ModeRGB |}.


Definition image_400x300 : Image :=
  {| pixels := 2; size := (400, 300); img_mode := ModeRGB |}.

(** A raster with an alpha channel, which the JPEG encoder refuses. *)
Definition image_rgba : Image :=
  {| pixels := 3; size := (400, 300); img_mode := ModeRGBA |}.

(** Pillow on quarter turns: [rotate] reduces the angle modulo 360, copies
    the image at 0, keeps its size at 180 and transposes it at 90 and 270.
    Any other angle goes through the affine path, whose size comes from
    floating-point trigonometry; a square of side width + height, which
    contains every rotation of the image, stands in for it. *)
Definition turned (i : Image) (a : Z) (size' : Z * Z) : Image :=
  {| pixels := (pixels i * 360 + Z.to_N a)%N; size := size';
     img_mode := img_mode i |}.

#[global] Instance quarter_turns : Pillow := {|
  rotate := fun i angle expand =>
    let a := angle mod 360 in
    if a =? 0 then i
    else if a =? 180 then turned i a (size i)
    else if ((a =? 90) || (a =? 270)) && (expand || (width i =? height i))
         then turned i a (height i, width i)
    else if expand then turned i a (width i + height i, width i + height i)
    else turned i a (size i)
|}.

Definition no_faults : faults :=
  {| write_fails := fun _ => false;
     read_fails := fun _ => false;
     remove_fails := fun _ => false |}.

(** An empty disk, before any canvas exists. *)
Definition fresh_world : world float :=
  {| fs := ∅;
     canvas := {| filename := User ""; pagesize := (0%float, 0%float); ops := [] |};
     next_tmp := 0;
     env := no_faults |}.

(** The engine [LayoutEngine(margin_inches=0.25, show_grid=True)]. *)
Definition engine_quarter_inch : LayoutEngine.LayoutEngine float :=
  {| LayoutEngine.margin := 18%float; LayoutEngine.show_grid := true;
     LayoutEngine.page_width := 612%float;
     LayoutEngine.page_height := 792%float;
     LayoutEngine.quadrant_width := 306%float;
     LayoutEngine.quadrant_height := 396%float |}.

(** A disk on which the output file cannot be written. *)
Definition read_only_output : faults :=
  {| write_fails := fun p => bool_decide (p = User "out.pdf");
     read_fails := fun _ => false;
     remove_fails := fun _ => false |}.

Definition read_only_world : world float :=
  {| fs := ∅;
     canvas := {| filename := User ""; pagesize := (0%float, 0%float); ops := [] |};
     next_tmp := 0;
     env := read_only_output |}.

(** A user preset whose only quadrant gives a source and nothing else. *)
Definition source_only : gmap string value := {[ "source" := VStr "{input}" ]}.

Definition user_config : ConfigManager.ConfigManager :=
  {| ConfigManager._user_presets :=
       {[ "mine" := {| description := None;
                       quadrants := Some [ (KInt 1, source_only) ] |} ]} |}.

Definition builtin_only : ConfigManager.ConfigManager :=
  {| ConfigManager._user_presets := ∅ |}.

(** An override of quadrant 3. *)
Definition override_q3 : option (gmap Z (gmap string value)) :=
  Some {[ 3 := ConfigManager.quadrant "notes.png" "1" 90 ]}.

(** The engine [LayoutEngine(margin_inches=2.75)]: its margin of 198
    points leaves a drawable area of height 0. *)
Definition engine_zero_height : LayoutEngine.LayoutEngine float :=
  {| LayoutEngine.margin := 198%float; LayoutEngine.show_grid := true;
     LayoutEngine.page_width := 612%float;
     LayoutEngine.page_height := 792%float;
     LayoutEngine.quadrant_width := 306%float;
     LayoutEngine.quadrant_height := 396%float |}.



(** The page of 8.5 x 11 inches rendered at 200 dots an inch. *)
Definition page_200dpi : Image :=
  {| pixels := 4; size := (1700, 2200); img_mode := ModeRGB |}.

(** A disk with a two-page PDF, a PNG with an alpha channel, a JPEG and a
    GIF that does not decode. *)
#[global] Instance sample_disk : Disk := {|
  path_exists := fun p =>
    bool_decide (p ∈ ["label.pdf"; "photo.png"; "scan.JPG"; "broken.gif"]);
  convert_from_path := fun p dpi =>
    if String.eqb p "label.pdf" then Ok [page_200dpi; image_400x300]
    else Raise OSError;
  Image_open := fun p =>
    if String.eqb p "photo.png" then Ok image_rgba
    else if String.eqb p "scan.JPG" then Ok image_400x300
    else Raise OSError;
  convert := fun i m => {| pixels := pixels i; size := size i; img_mode := m |}
|}.

(** A home directory whose Downloads folder holds [label.pdf], with a file
    of the same name in the current directory. *)
#[global] Instance sample_paths : Paths := {|
  expanduser := fun p => p;
  is_absolute := fun p => match p with String "/" _ => true | _ => false end;
  file_exists := fun p =>
    bool_decide (p ∈ ["label.pdf"; "/home/u/Downloads/label.pdf"; "notes.pdf"]);
  resolved := fun p =>
    match p with String "/" _ => p | _ => "/home/u/work/" ++ p end;
  joinpath := fun d p =>
    match p with String "/" _ => p | _ => d ++ "/" ++ p end;
  DEFAULT_DOWNLOADS := "/home/u/Downloads"
|}.

(** A user configuration that replaces the built-in preset "standard" by
    an empty mapping. *)
Definition emptied_standard : ConfigManager.ConfigManager :=
  {| ConfigManager._user_presets :=
       {[ "standard" := {| description := None; quadrants := None |} ]} |}.

Definition upright (i : Image) : option QuadrantConfig :=
  Some {| image := Some i; rotation := 0 |}.

End Examples.

Import Examples.

(** * Properties *)

(** ** Fit-to-box *)

Section FitToBox.
Import ImageProcessor.

Lemma truediv_Ok {F} `{PyNum F} (x y q : F) :
  truediv x y = Ok q -> is_zero y = false /\ q = div x y.
Proof.
  unfold truediv. destruct (is_zero y); [discriminate|].
  intros [= <-]. done.
Qed.

Lemma truediv_Raise {F} `{PyNum F} (x y : F) e :
  truediv x y = Raise e -> e = ZeroDivisionError.
Proof.
  unfold truediv. destruct (is_zero y); [|discriminate].
  by intros [= <-].
Qed.

(** Whatever the arithmetic, a returned triple is the input image and the
    two numbers of the branch taken. *)
Lemma fit_to_box_Ok {F} `{PyNum F} (image i : Image) (max_width max_height nw nh : F) :
  fit_to_box image max_width max_height = Ok (i, nw, nh) ->
  let img_aspect := div (of_Z (width image)) (of_Z (height image)) in
  let box_aspect := div max_width max_height in
  i = image /\
  (if gtb img_aspect box_aspect
   then nw = max_width /\ nh = div max_width img_aspect
   else nh = max_height /\ nw = mul max_height img_aspect).
Proof.
  unfold fit_to_box, width, height. destruct (size image) as [w h]. simpl.
  destruct (truediv (of_Z w) (of_Z h)) as [a|] eqn:Ea; [|discriminate].
  apply truediv_Ok in Ea as [_ ->]. simpl.
  destruct (truediv max_width max_height) as [b|] eqn:Eb; [|discriminate].
  apply truediv_Ok in Eb as [_ ->]. simpl.
  destruct (gtb _ _).
  - destruct (truediv max_width _) as [q|] eqn:Eq; [|discriminate].
    apply truediv_Ok in Eq as [_ ->]. simpl. by intros [= <- <- <-].
  - by intros [= <- <- <-].
Qed.

Lemma fit_to_box_Raise {F} `{PyNum F} (image : Image) (max_width max_height : F) e :
  fit_to_box image max_width max_height = Raise e -> e = ZeroDivisionError.
Proof.
  unfold fit_to_box. destruct (size image) as [w h].
  destruct (truediv (of_Z w) (of_Z h)) as [a|] eqn:Ea; simpl.
  2:{ intros [= <-]. by eapply truediv_Raise. }
  destruct (truediv max_width max_height) as [b|] eqn:Eb; simpl.
  2:{ intros [= <-]. by eapply truediv_Raise. }
  destruct (gtb a b); [|discriminate].
  destruct (truediv max_width a) eqn:Eq; simpl; [discriminate|].
  intros [= <-]. by eapply truediv_Raise.
Qed.

End FitToBox.

(** *** How binary64 division rounds

    [SpecFloat.SFdiv] scales the exact quotient to the canonical exponent,
    keeps it between two neighbouring integers and rounds to one of them.
    So the computed quotient never steps over a binary64 number: this is
    what bounds the fitted height. *)

Section Rounding.

Lemma bpow_pos e : (0 < bpow e)%R.
Proof. apply powerRZ_lt. lra. Qed.

Lemma bpow_add a b : bpow (a + b) = (bpow a * bpow b)%R.
Proof. apply powerRZ_add. lra. Qed.

Lemma bpow_IZR k : 0 <= k -> bpow k = IZR (2 ^ k).
Proof.
  intros Hk. unfold bpow. rewrite <- (Z2Nat.id k Hk).
  by rewrite <- pow_powerRZ, pow_IZR.
Qed.

Lemma bpow_le a b : a <= b -> (bpow a <= bpow b)%R.
Proof.
  intros Hab. replace b with (a + (b - a)) by lia.
  rewrite bpow_add, (bpow_IZR (b - a)) by lia.
  assert (1 <= 2 ^ (b - a)) by (pose proof (Z.pow_pos_nonneg 2 (b - a)); lia).
  apply IZR_le in H. pose proof (bpow_pos a). nra.
Qed.

Lemma bpow_lt a b : a < b -> (bpow a < bpow b)%R.
Proof.
  intros Hab. replace b with (a + (b - a)) by lia.
  rewrite bpow_add, (bpow_IZR (b - a)) by lia.
  assert (2 <= 2 ^ (b - a)).
  { change 2 with (2 ^ 1) at 1. apply Z.pow_le_mono_r; lia. }
  apply IZR_le in H. pose proof (bpow_pos a). nra.
Qed.

Lemma digits2_pos_size p : digits2_pos p = Pos.size p.
Proof. induction p; simpl; congruence. Qed.

Lemma Zdigits2_log2 m : 0 < m -> Zdigits2 m = Z.log2 m + 1.
Proof.
  destruct m as [|p|p]; [lia| |lia]. intros _. simpl.
  destruct p; simpl; rewrite ?digits2_pos_size; lia.
Qed.

Lemma Zdigits2_bounds m :
  0 < m -> 0 < Zdigits2 m /\ 2 ^ (Zdigits2 m - 1) <= m < 2 ^ Zdigits2 m.
Proof.
  intros Hm. rewrite Zdigits2_log2 by done.
  pose proof (Z.log2_spec m Hm). pose proof (Z.log2_nonneg m).
  replace (Z.log2 m + 1 - 1) with (Z.log2 m) by lia.
  replace (Z.log2 m + 1) with (Z.succ (Z.log2 m)) by lia. lia.
Qed.

Lemma Zdigits2_unique m d :
  0 < m -> 2 ^ (d - 1) <= m < 2 ^ d -> Zdigits2 m = d.
Proof.
  intros Hm Hd. rewrite Zdigits2_log2 by done.
  assert (0 < d).
  { destruct (Z.lt_trichotomy d 0) as [Hn|[->|Hp]]; [|simpl in Hd; lia|done].
    rewrite (Z.pow_neg_r 2 d) in Hd by done. lia. }
  rewrite (Z.log2_unique m (d - 1)); [lia|lia|].
  replace (Z.succ (d - 1)) with d by lia. done.
Qed.


Lemma IZR_xO p : IZR (Zpos p~0) = (IZR (Zpos p) + IZR (Zpos p))%R.
Proof. rewrite Pos2Z.inj_xO, mult_IZR. lra. Qed.

Lemma IZR_xI p : IZR (Zpos p~1) = (IZR (Zpos p) + IZR (Zpos p) + 1)%R.
Proof. rewrite Pos2Z.inj_xI, plus_IZR, mult_IZR. lra. Qed.

Lemma bpow_m1 : bpow (-1) = (/ 2)%R.
Proof. unfold bpow. simpl. f_equal. lra. Qed.

Lemma bpow_0 : bpow 0 = 1%R.
Proof. reflexivity. Qed.

Lemma bpow_1 : bpow 1 = 2%R.
Proof. unfold bpow. simpl. lra. Qed.

(** Powers of two compare as their exponents. *)
Lemma bpow_lt_inv a b : (bpow a < bpow b)%R -> a < b.
Proof.
  intros Hlt. destruct (Z_lt_le_dec a b) as [|Hle]; [done|].
  apply bpow_le in Hle. lra.
Qed.

(** One step of the right shift halves the number the record stands for. *)
Lemma shr_1_brackets r x :
  0 <= shr_m r ->
  brackets (shr_m r) (loc_of_shr_record r) x ->
  0 <= shr_m (shr_1 r) /\
  brackets (shr_m (shr_1 r)) (loc_of_shr_record (shr_1 r)) (x * bpow (-1)).
Proof.
  rewrite bpow_m1.
  destruct r as [m rb sb]. cbn [shr_m].
  destruct m as [|[p|p|]|p]; [| | | |lia]; intros _;
    destruct rb, sb;
    cbn [shr_1 shr_m loc_of_shr_record brackets orb];
    intros Hx; (split; [lia|]);
    rewrite ?(IZR_xO p), ?(IZR_xI p) in *; lra.
Qed.

Lemma iter_pos_shr_1 p : forall r x,
  0 <= shr_m r ->
  brackets (shr_m r) (loc_of_shr_record r) x ->
  0 <= shr_m (SpecFloat.iter_pos shr_1 p r) /\
  brackets (shr_m (SpecFloat.iter_pos shr_1 p r)) (loc_of_shr_record (SpecFloat.iter_pos shr_1 p r))
           (x * bpow (- Zpos p)).
Proof.
  induction p as [p IH|p IH|]; intros r x Hm Hx; cbn [SpecFloat.iter_pos].
  - destruct (shr_1_brackets r x Hm Hx) as [Hm1 Hx1].
    destruct (IH _ _ Hm1 Hx1) as [Hm2 Hx2].
    destruct (IH _ _ Hm2 Hx2) as [Hm3 Hx3].
    split; [done|].
    replace (x * bpow (- Z.pos p~1))%R
      with (x * bpow (-1) * bpow (- Z.pos p) * bpow (- Z.pos p))%R; [done|].
    replace (- Z.pos p~1) with (-1 + (- Z.pos p + - Z.pos p)) by lia.
    rewrite !bpow_add. ring.
  - destruct (IH _ _ Hm Hx) as [Hm2 Hx2].
    destruct (IH _ _ Hm2 Hx2) as [Hm3 Hx3].
    split; [done|].
    replace (x * bpow (- Z.pos p~0))%R
      with (x * bpow (- Z.pos p) * bpow (- Z.pos p))%R; [done|].
    replace (- Z.pos p~0) with (- Z.pos p + - Z.pos p) by lia.
    rewrite !bpow_add. ring.
  - by apply shr_1_brackets.
Qed.

Lemma shr_record_of_loc_brackets m l x :
  brackets m l x ->
  brackets (shr_m (shr_record_of_loc m l))
           (loc_of_shr_record (shr_record_of_loc m l)) x.
Proof. by destruct l as [|[]]. Qed.

Lemma shr_m_record_of_loc m l : shr_m (shr_record_of_loc m l) = m.
Proof. by destruct l as [|[]]. Qed.

Lemma fexp_eq e : fexp prec emax e = Z.max (e - 53) (-1074).
Proof. reflexivity. Qed.

(** The first shift of [binary_round_aux], when the mantissa has digits
    enough: the exponent becomes the canonical one. *)
Lemma shr_fexp_spec m e l x :
  0 <= m -> brackets m l x ->
  e <= fexp prec emax (Zdigits2 m + e) ->
  exists rec,
    shr_fexp prec emax m e l = (rec, fexp prec emax (Zdigits2 m + e)) /\
    0 <= shr_m rec /\
    brackets (shr_m rec) (loc_of_shr_record rec)
             (x * bpow (e - fexp prec emax (Zdigits2 m + e))).
Proof.
  intros Hm Hx He. unfold shr_fexp, shr.
  set (e' := fexp prec emax (Zdigits2 m + e)) in *.
  destruct (e' - e) as [|p|p] eqn:En; [| |lia].
  - exists (shr_record_of_loc m l). replace e' with e by lia.
    rewrite Z.sub_diag, bpow_0, Rmult_1_r.
    split; [done|]. split; [by rewrite shr_m_record_of_loc|].
    by apply shr_record_of_loc_brackets.
  - exists (SpecFloat.iter_pos shr_1 p (shr_record_of_loc m l)).
    replace (e + Z.pos p) with e' by lia. split; [done|].
    replace (e - e') with (- Z.pos p) by lia.
    apply iter_pos_shr_1.
    + by rewrite shr_m_record_of_loc.
    + by apply shr_record_of_loc_brackets.
Qed.

Lemma brackets_bounds m l x : brackets m l x -> (IZR m <= x < IZR m + 1)%R.
Proof. destruct l; simpl; intros; lra. Qed.

Lemma round_nearest_even_spec m l x :
  brackets m l x ->
  rounded (round_nearest_even m l) x /\
  (round_nearest_even m l = m \/ round_nearest_even m l = m + 1).
Proof.
  intros Hx.
  assert (Hcases : (l = loc_Exact /\ round_nearest_even m l = m) \/
                   ((exists c, l = loc_Inexact c) /\
                    (round_nearest_even m l = m \/ round_nearest_even m l = m + 1))).
  { destruct l as [|[]]; simpl; eauto. destruct (Z.even m); eauto. }
  destruct Hcases as [[-> ->]|[[c ->] Hn]]; simpl in Hx.
  - split; [|by left]. subst x. split; intros k Hk; by apply le_IZR.
  - split; [|done]. split; intros k Hk.
    + assert (m < k) by (apply lt_IZR; lra). lia.
    + assert (k < m + 1) by (apply lt_IZR; rewrite plus_IZR; lra). lia.
Qed.


Lemma pow2_le a b : a <= b -> 0 <= b -> 2 ^ a <= 2 ^ b.
Proof.
  intros Hab Hb. destruct (Z_lt_le_dec a 0) as [Hn|Hp].
  - rewrite (Z.pow_neg_r 2 a) by done. by apply Z.pow_nonneg.
  - apply Z.pow_le_mono_r; lia.
Qed.

Lemma pow2_lt_inv a b : 2 ^ a < 2 ^ b -> 0 <= b -> a < b.
Proof. intros Hlt Hb. by apply (Z.pow_lt_mono_r_iff 2). Qed.

(** A positive mantissa between two powers of two, as real numbers. *)
Lemma Zdigits2_bpow m :
  0 < m ->
  (bpow (Zdigits2 m - 1) <= IZR m)%R /\ (IZR m + 1 <= bpow (Zdigits2 m))%R.
Proof.
  intros Hm. destruct (Zdigits2_bounds m Hm) as (Hd & Hlo & Hhi).
  rewrite !bpow_IZR by lia. split; [by apply IZR_le|].
  rewrite <- plus_IZR. apply IZR_le. lia.
Qed.

(** After the first shift the mantissa is zero at the least exponent, or
    it has the digits its exponent asks for. *)
Lemma shr_fexp_canonical m e l x m' l' :
  0 <= m -> brackets m l x ->
  e <= fexp prec emax (Zdigits2 m + e) ->
  0 <= m' ->
  brackets m' l' (x * bpow (e - fexp prec emax (Zdigits2 m + e))) ->
  (m' = 0 /\ fexp prec emax (Zdigits2 m + e) = -1074) \/
  (0 < m' /\ Zdigits2 m' + fexp prec emax (Zdigits2 m + e) = Zdigits2 m + e).
Proof.
  intros Hm Hx He Hm' Hy.
  apply brackets_bounds in Hx, Hy.
  set (e' := fexp prec emax (Zdigits2 m + e)) in *.
  assert (He' : e' = Z.max (Zdigits2 m + e - 53) (-1074)) by reflexivity.
  destruct (Z.eq_dec m 0) as [->|Hm0].
  - left. simpl in He'. split; [|lia].
    assert (Hb : (bpow (e - e') <= bpow 0)%R) by (apply bpow_le; lia).
    rewrite bpow_0 in Hb. pose proof (bpow_pos (e - e')).
    assert (m' < 1); [|lia]. apply lt_IZR. simpl in Hx. nra.
  - destruct (Zdigits2_bpow m) as [Hlo Hhi]; [lia|].
    set (d := Zdigits2 m) in *. pose proof (bpow_pos (e - e')) as Hpos.
    assert (Hylo : (bpow (d - 1 + e - e') <= x * bpow (e - e'))%R).
    { replace (d - 1 + e - e') with (d - 1 + (e - e')) by lia.
      rewrite bpow_add. nra. }
    assert (Hyhi : (x * bpow (e - e') < bpow (d + e - e'))%R).
    { replace (d + e - e') with (d + (e - e')) by lia.
      rewrite bpow_add. nra. }
    destruct (Z.eq_dec m' 0) as [->|Hm'0].
    + left. split; [done|].
      assert (d - 1 + e - e' < 0); [|lia].
      apply bpow_lt_inv. rewrite bpow_0. simpl in Hy. lra.
    + right. split; [lia|].
      assert (Hk : 0 < d + e - e').
      { apply bpow_lt_inv. rewrite bpow_0.
        assert (1 <= IZR m')%R by (apply IZR_le; lia). lra. }
      rewrite (Zdigits2_unique m' (d + e - e')); [lia|lia|].
      split.
      * assert (2 ^ (d + e - e' - 1) < m' + 1); [|lia].
        apply lt_IZR. rewrite <- bpow_IZR, plus_IZR by lia.
        replace (d + e - e' - 1) with (d - 1 + e - e') by lia. lra.
      * apply lt_IZR. rewrite <- bpow_IZR by lia. lra.
Qed.

(** The second shift of [binary_round_aux] does nothing to a mantissa that
    has the digits its exponent asks for. *)
Lemma shr_fexp_fixed N e :
  fexp prec emax (Zdigits2 N + e) = e ->
  shr_fexp prec emax N e loc_Exact
  = ({| shr_m := N; shr_r := false; shr_s := false |}, e).
Proof. intros He. unfold shr_fexp. by rewrite He, Z.sub_diag. Qed.

(** [binary_round_aux] on a mantissa with digits enough: the number is
    scaled to the canonical exponent, rounded to a neighbouring integer
    and packed. *)
Lemma binary_round_aux_spec sx mx ex lx x :
  0 <= mx -> brackets mx lx x ->
  ex <= fexp prec emax (Zdigits2 mx + ex) ->
  exists N,
    0 <= N /\
    rounded N (x * bpow (ex - fexp prec emax (Zdigits2 mx + ex))) /\
    packs sx N (fexp prec emax (Zdigits2 mx + ex))
          (binary_round_aux prec emax sx mx ex lx).
Proof.
  intros Hm Hx He.
  destruct (shr_fexp_spec mx ex lx x Hm Hx He) as (rec & Hshr & Hm' & Hy).
  pose proof (shr_fexp_canonical mx ex lx x _ _ Hm Hx He Hm' Hy) as Hcan.
  destruct (round_nearest_even_spec _ _ _ Hy) as [Hr HN].
  unfold binary_round_aux. rewrite Hshr.
  set (e' := fexp prec emax (Zdigits2 mx + ex)) in *.
  set (m' := shr_m rec) in *.
  set (N := round_nearest_even m' (loc_of_shr_record rec)) in *.
  assert (He' : -1074 <= e') by (subst e'; rewrite fexp_eq; lia).
  exists N. split; [lia|]. split; [done|].
  assert (Hfix : 0 < N -> fexp prec emax (Zdigits2 N + e') = e' ->
                 packs sx N e'
                   (let '(mrs'', e'') := shr_fexp prec emax N e' loc_Exact in
                    match shr_m mrs'' with
                    | 0 => S754_zero sx
                    | Z.pos m =>
                        if e'' <=? emax - prec
                        then S754_finite sx m e'' else S754_infinity sx
                    | Z.neg _ => S754_nan
                    end)).
  { intros HN0 Hc. rewrite (shr_fexp_fixed _ _ Hc). cbn [shr_m].
    destruct N as [|M|M]; [lia| |lia]. right. split; [done|].
    exists M, e'. split; [done|]. split; [|done].
    unfold canonical_mantissa. by apply Z.eqb_eq. }
  destruct Hcan as [[Hz He0]|[Hpos Hd]].
  - (* the mantissa was shifted out *)
    rewrite He0 in *. destruct HN as [HN|HN]; rewrite Hz in HN.
    + left. split; [done|]. by rewrite HN.
    + apply Hfix; [lia|]. by rewrite HN.
  - assert (Hc : fexp prec emax (Zdigits2 m' + e') = e') by (by rewrite Hd).
    rewrite fexp_eq in Hc.
    destruct (Zdigits2_bounds m' Hpos) as (Hd' & Hlo & Hhi).
    assert (Hd53 : Zdigits2 m' <= 53) by lia.
    pose proof (pow2_le (Zdigits2 m') 53 Hd53 ltac:(lia)) as H53.
    destruct (Z.eq_dec N (2 ^ 53)) as [HN53|HN53].
    + (* the rounding carried into the next binade *)
      assert (Hd'53 : Zdigits2 m' = 53).
      { destruct (Z_lt_le_dec (Zdigits2 m') 53) as [Hlt|]; [|lia].
        pose proof (pow2_le (Zdigits2 m') 52 ltac:(lia) ltac:(lia)).
        change (2 ^ 53) with (2 * 2 ^ 52) in *. lia. }
      rewrite HN53. right. split; [done|].
      exists (2 ^ 52)%positive, (e' + 1). split.
      { rewrite bpow_add, bpow_1.
        change (IZR (Z.pos (2 ^ 52))) with 4503599627370496%R.
        change (IZR (2 ^ 53)) with 9007199254740992%R. lra. }
      split.
      { unfold canonical_mantissa. apply Z.eqb_eq. rewrite fexp_eq.
        change (Z.pos (digits2_pos (2 ^ 52))) with 53. lia. }
      unfold shr_fexp. change (Zdigits2 (2 ^ 53)) with 54. rewrite fexp_eq.
      replace (Z.max (54 + e' - 53) (-1074) - e') with 1 by lia.
      reflexivity.
    + apply Hfix; [lia|].
      assert (HNpos : 0 < N) by lia.
      destruct (Zdigits2_bounds N HNpos) as (HdN & HloN & HhiN).
      assert (HN53' : N < 2 ^ 53) by lia.
      assert (Zdigits2 N - 1 < 53) by (apply pow2_lt_inv; lia).
      assert (Zdigits2 m' - 1 < Zdigits2 N) by (apply pow2_lt_inv; lia).
      rewrite fexp_eq. lia.
Qed.


(** *** Comparison of canonical numbers *)

Lemma canonical_digits m e :
  canonical_mantissa prec emax m e = true ->
  -1074 <= e /\ Zdigits2 (Zpos m) <= 53 /\
  (-1074 < e -> Zdigits2 (Zpos m) = 53).
Proof.
  unfold canonical_mantissa. intros Hc%Z.eqb_eq. rewrite fexp_eq in Hc.
  change (Z.pos (digits2_pos m)) with (Zdigits2 (Zpos m)) in Hc. lia.
Qed.

Lemma canonical_bpow m e :
  canonical_mantissa prec emax m e = true ->
  (IZR (Zpos m) * bpow e < bpow (53 + e))%R /\
  (-1074 < e -> (bpow (52 + e) <= IZR (Zpos m) * bpow e)%R).
Proof.
  intros (He & Hd & Hn)%canonical_digits.
  destruct (Zdigits2_bpow (Zpos m)) as [Hlo Hhi]; [done|].
  pose proof (bpow_pos e) as Hpos. rewrite !bpow_add. split.
  - pose proof (bpow_le _ _ Hd). nra.
  - intros He'. rewrite (Hn He') in Hlo. change (53 - 1) with 52 in Hlo. nra.
Qed.

Lemma canonical_lt m1 e1 m2 e2 :
  canonical_mantissa prec emax m1 e1 = true ->
  canonical_mantissa prec emax m2 e2 = true ->
  e1 < e2 ->
  (IZR (Zpos m1) * bpow e1 < IZR (Zpos m2) * bpow e2)%R.
Proof.
  intros H1' H2 Hlt. pose proof (canonical_bpow _ _ H1') as [H1 _].
  apply canonical_bpow in H2 as [_ H2].
  assert (Hle : (bpow (53 + e1) <= bpow (52 + e2))%R) by (apply bpow_le; lia).
  assert (He12 : -1074 < e2); [|specialize (H2 He12); lra].
  apply canonical_digits in H1'. lia.
Qed.


Lemma SFleb_finite m1 e1 m2 e2 :
  canonical_mantissa prec emax m1 e1 = true ->
  canonical_mantissa prec emax m2 e2 = true ->
  (IZR (Zpos m1) * bpow e1 <= IZR (Zpos m2) * bpow e2)%R ->
  SFleb (S754_finite false m1 e1) (S754_finite false m2 e2) = true.
Proof.
  intros H1 H2 Hle. unfold SFleb, SFcompare.
  destruct (Z.compare_spec e1 e2) as [->|Hlt|Hgt]; [|done|].
  - rewrite Pos.compare_cont_spec. simpl.
    pose proof (bpow_pos e2) as Hpos.
    assert (Hm : Zpos m1 <= Zpos m2) by (apply le_IZR; nra).
    destruct (Pos.compare_spec m1 m2); [done|done|lia].
  - pose proof (canonical_lt _ _ _ _ H2 H1 Hgt). lra.
Qed.

Lemma SFcompare_antisym x y :
  SFcompare y x = CompOpp <$> SFcompare x y.
Proof.
  destruct x as [sx|sx| |sx mx ex], y as [sy|sy| |sy my ey];
    try destruct sx; try destruct sy; try reflexivity; simpl;
    rewrite (Z.compare_antisym ex ey);
    destruct (ex ?= ey); simpl; try reflexivity;
    rewrite (Pos.compare_cont_antisym mx my Eq); reflexivity.
Qed.

Lemma SFltb_not_SFleb x y : SFltb x y = true -> SFleb y x = false.
Proof.
  unfold SFltb, SFleb. rewrite (SFcompare_antisym x y).
  by destruct (SFcompare x y) as [[]|].
Qed.

(** *** Division *)

Lemma new_location_brackets nb k (x : R) (q : Z) :
  (k = 0 -> x = IZR q) ->
  (k <> 0 -> (IZR q < x < IZR q + 1)%R) ->
  brackets q (new_location nb k) x.
Proof.
  intros Hz Hn. unfold new_location, new_location_even, new_location_odd.
  destruct (Z.even nb), (Z.eqb_spec k 0); simpl; auto.
Qed.

(** The quotient of two mantissas as [SFdiv] computes it: an integer
    [q] that brackets the exact quotient at an exponent [e'] for which
    [q] has digits enough. *)
Lemma SFdiv_core_binary_spec m1 e1 m2 e2 :
  exists q e' l,
    SFdiv_core_binary prec emax (Zpos m1) e1 (Zpos m2) e2 = (q, e', l) /\
    0 <= q /\
    brackets q l (IZR (Zpos m1) * bpow (e1 - e2 - e') / IZR (Zpos m2)) /\
    e' <= fexp prec emax (Zdigits2 q + e').
Proof.
  unfold SFdiv_core_binary.
  set (d1 := Zdigits2 (Zpos m1)). set (d2 := Zdigits2 (Zpos m2)).
  set (e' := Z.min (fexp prec emax (d1 + e1 - (d2 + e2))) (e1 - e2)).
  set (s := e1 - e2 - e').
  assert (Hs : 0 <= s) by (subst s e'; lia).
  set (m' := match s with
             | 0 => Zpos m1
             | Z.pos _ => Z.shiftl (Zpos m1) s
             | Z.neg _ => 0
             end).
  assert (Hm' : m' = Zpos m1 * 2 ^ s).
  { subst m'. destruct s as [|p|p] eqn:Es; [lia| |lia].
    by rewrite Z.shiftl_mul_pow2. }
  pose proof (Z_div_mod m' (Zpos m2) ltac:(lia)) as Hdiv.
  destruct (Z.div_eucl m' (Zpos m2)) as [q r]. destruct Hdiv as [Hqr Hr].
  exists q, e', (new_location (Zpos m2) r). split; [done|].
  assert (H2s : 0 < 2 ^ s) by (by apply Z.pow_pos_nonneg).
  assert (Hq : 0 <= q) by nia.
  split; [done|].
  assert (Hx : (IZR (Zpos m1) * bpow s / IZR (Zpos m2)
                = IZR q + IZR r / IZR (Zpos m2))%R).
  { rewrite bpow_IZR, <- mult_IZR, <- Hm', Hqr, plus_IZR, mult_IZR by done.
    field. apply not_0_IZR. lia. }
  assert (Hm2 : (0 < IZR (Zpos m2))%R) by (apply IZR_lt; lia).
  split.
  - change (e1 - e2 - e') with s. rewrite Hx. apply new_location_brackets.
    + intros ->. unfold Rdiv. rewrite Rmult_0_l. lra.
    + intros Hr0.
      assert (Hr1 : (0 < IZR r)%R) by (apply IZR_lt; lia).
      assert (Hr2 : (IZR r < IZR (Zpos m2))%R) by (apply IZR_lt; lia).
      assert (Hlo : (0 < IZR r / IZR (Zpos m2))%R)
        by (by apply Rdiv_lt_0_compat).
      assert (Hhi : (IZR r / IZR (Zpos m2) < 1)%R).
      { apply (Rmult_lt_reg_r (IZR (Zpos m2))); [done|].
        unfold Rdiv. rewrite Rmult_assoc, Rinv_l by lra. lra. }
      lra.
  - rewrite fexp_eq.
    destruct (Z_le_gt_dec e' (-1074)) as [Hle|Hgt]; [lia|].
    assert (He' : e' <= d1 + e1 - (d2 + e2) - 53).
    { subst e'. rewrite fexp_eq. rewrite fexp_eq in Hgt. lia. }
    destruct (Zdigits2_bounds (Zpos m1)) as (Hd1 & Hlo1 & _); [done|].
    destruct (Zdigits2_bounds (Zpos m2)) as (Hd2 & _ & Hhi2); [done|].
    fold d1 in Hd1, Hlo1. fold d2 in Hd2, Hhi2.
    assert (Hpow : 2 ^ d2 * 2 ^ 52 <= 2 ^ (d1 - 1) * 2 ^ s).
    { rewrite <- !Z.pow_add_r by lia. apply pow2_le; lia. }
    assert (Hq52 : 2 ^ 52 <= q).
    { assert (Zpos m2 * 2 ^ 52 < Zpos m2 * (q + 1)); [|nia].
      assert (2 ^ (d1 - 1) * 2 ^ s <= Zpos m1 * 2 ^ s) by nia.
      assert (Zpos m2 * 2 ^ 52 < 2 ^ d2 * 2 ^ 52) by nia.
      lia. }
    destruct (Zdigits2_bounds q) as (Hdq & _ & Hhiq); [lia|].
    assert (52 < Zdigits2 q) by (apply pow2_lt_inv; lia).
    lia.
Qed.


Lemma bpow_opp e : bpow (- e) = (/ bpow e)%R.
Proof. apply powerRZ_neg'. Qed.

Lemma bpow_opp_r e : (bpow e * bpow (- e) = 1)%R.
Proof. rewrite <- bpow_add, Z.add_opp_diag_r. apply bpow_0. Qed.

(** [SFdiv] on two positive finite numbers: their exact quotient [V] is
    scaled to a canonical exponent [e'], rounded to a neighbouring integer
    [N] and packed. *)
Lemma SFdiv_rounds m1 e1 m2 e2 :
  let V := (IZR (Zpos m1) * bpow e1 / (IZR (Zpos m2) * bpow e2))%R in
  exists e' N,
    -1074 <= e' /\ 0 <= N /\
    rounded N (V * bpow (- e')) /\
    packs false N e'
          (SFdiv prec emax (S754_finite false m1 e1) (S754_finite false m2 e2)) /\
    (-1074 < e' -> (bpow (52 + e') <= V)%R).
Proof.
  intros V.
  destruct (SFdiv_core_binary_spec m1 e1 m2 e2)
    as (q & eq & l & Hcore & Hq & Hbr & Hdig).
  destruct (binary_round_aux_spec false q eq l _ Hq Hbr Hdig)
    as (N & HN & Hr & Hp).
  set (e' := fexp prec emax (Zdigits2 q + eq)) in *.
  set (x := (IZR (Zpos m1) * bpow (e1 - e2 - eq) / IZR (Zpos m2))%R) in *.
  assert (Hm2 : (0 < IZR (Zpos m2))%R) by (apply IZR_lt; lia).
  pose proof (bpow_pos e2) as He2. pose proof (bpow_pos eq) as Heq.
  pose proof (bpow_pos e') as He'.
  assert (HV : (x * bpow eq = V)%R).
  { subst x V. replace (e1 - e2 - eq) with (e1 + (- e2 + - eq)) by lia.
    rewrite !bpow_add, !bpow_opp. field. lra. }
  exists e', N. split; [subst e'; rewrite fexp_eq; lia|].
  split; [done|]. split; [|split].
  - replace (V * bpow (- e'))%R with (x * bpow (eq - e'))%R; [done|].
    rewrite <- HV. replace (eq - e') with (eq + - e') by lia.
    rewrite bpow_add. ring.
  - cbn [SFdiv]. rewrite Hcore. exact Hp.
  - intros Hgt. subst e'. rewrite fexp_eq in Hgt, Hdig.
    destruct (Z.eq_dec q 0) as [->|Hq0]; [simpl in Hgt, Hdig; lia|].
    destruct (Zdigits2_bpow q) as [Hlo _]; [lia|].
    apply brackets_bounds in Hbr as [Hbr _].
    rewrite fexp_eq.
    replace (52 + Z.max (Zdigits2 q + eq - 53) (-1074))
      with (Zdigits2 q - 1 + eq) by lia.
    rewrite bpow_add, <- HV. nra.
Qed.

(** Rounding does not step over a binary64 number: a number at or above
    the exact quotient is at or above the computed one ... *)
Lemma SFdiv_le m1 e1 m2 e2 mc ec :
  canonical_mantissa prec emax mc ec = true ->
  ec <= emax - prec ->
  (IZR (Zpos m1) * bpow e1 / (IZR (Zpos m2) * bpow e2)
   <= IZR (Zpos mc) * bpow ec)%R ->
  SFleb (SFdiv prec emax (S754_finite false m1 e1) (S754_finite false m2 e2))
        (S754_finite false mc ec) = true.
Proof.
  intros Hc Hec HV.
  destruct (SFdiv_rounds m1 e1 m2 e2) as (e' & N & He' & HN & [Hup _] & Hp & Hbig).
  cbv zeta in *.
  set (V := (IZR (Zpos m1) * bpow e1 / (IZR (Zpos m2) * bpow e2))%R) in *.
  pose proof (bpow_pos e') as Hpe'. pose proof (bpow_pos (- e')) as Hpme'.
  pose proof (bpow_opp_r e') as Hinv.
  assert (Hle : (IZR N * bpow e' <= IZR (Zpos mc) * bpow ec)%R).
  { destruct (Z_le_gt_dec e' ec) as [Hee|Hee].
    - assert (HNk : N <= Zpos mc * 2 ^ (ec - e')).
      { apply Hup. rewrite mult_IZR, <- bpow_IZR by lia.
        replace (ec - e') with (ec + - e') by lia. rewrite bpow_add.
        rewrite <- Rmult_assoc. apply Rmult_le_compat_r; lra. }
      apply IZR_le in HNk. rewrite mult_IZR, <- bpow_IZR in HNk by lia.
      replace (IZR (Zpos mc) * bpow ec)%R
        with (IZR (Zpos mc) * bpow (ec - e') * bpow e')%R.
      + apply Rmult_le_compat_r; lra.
      + rewrite Rmult_assoc, <- bpow_add. do 2 f_equal. lia.
    - destruct (canonical_bpow _ _ Hc) as [Hlt _].
      pose proof (canonical_digits _ _ Hc) as (Hec0 & _ & _).
      specialize (Hbig ltac:(lia)).
      assert ((bpow (53 + ec) <= bpow (52 + e'))%R) by (apply bpow_le; lia).
      lra. }
  destruct Hp as [[-> ->]|(HN0 & M & e'' & HM & HcM & ->)]; [done|].
  rewrite <- HM in Hle.
  destruct (Z.leb_spec e'' (emax - prec)) as [_|Hover].
  - by apply SFleb_finite.
  - assert (Hlt : ec < e'') by lia.
    pose proof (canonical_lt _ _ _ _ Hc HcM Hlt). lra.
Qed.

(** ... and a number at or below the exact quotient is at or below the
    computed one. *)
Lemma SFdiv_ge m1 e1 m2 e2 mc ec :
  canonical_mantissa prec emax mc ec = true ->
  (IZR (Zpos mc) * bpow ec
   <= IZR (Zpos m1) * bpow e1 / (IZR (Zpos m2) * bpow e2))%R ->
  SFleb (S754_finite false mc ec)
        (SFdiv prec emax (S754_finite false m1 e1) (S754_finite false m2 e2))
  = true.
Proof.
  intros Hc HV.
  destruct (SFdiv_rounds m1 e1 m2 e2) as (e' & N & He' & HN & [_ Hdown] & Hp & Hbig).
  cbv zeta in *.
  set (V := (IZR (Zpos m1) * bpow e1 / (IZR (Zpos m2) * bpow e2))%R) in *.
  pose proof (bpow_pos e') as Hpe'. pose proof (bpow_pos (- e')) as Hpme'.
  pose proof (bpow_pos ec) as Hpec.
  pose proof (bpow_opp_r e') as Hinv.
  assert (Hmc : (1 <= IZR (Zpos mc))%R) by (apply IZR_le; lia).
  assert (Hle : (IZR (Zpos mc) * bpow ec <= IZR N * bpow e')%R).
  { destruct (Z_le_gt_dec e' ec) as [Hee|Hee].
    - assert (HNk : Zpos mc * 2 ^ (ec - e') <= N).
      { apply Hdown. rewrite mult_IZR, <- bpow_IZR by lia.
        replace (ec - e') with (ec + - e') by lia. rewrite bpow_add.
        rewrite <- Rmult_assoc. apply Rmult_le_compat_r; lra. }
      apply IZR_le in HNk. rewrite mult_IZR, <- bpow_IZR in HNk by lia.
      replace (IZR (Zpos mc) * bpow ec)%R
        with (IZR (Zpos mc) * bpow (ec - e') * bpow e')%R.
      + apply Rmult_le_compat_r; lra.
      + rewrite Rmult_assoc, <- bpow_add. do 2 f_equal. lia.
    - destruct (canonical_bpow _ _ Hc) as [Hlt _].
      pose proof (canonical_digits _ _ Hc) as (Hec0 & _ & _).
      specialize (Hbig ltac:(lia)).
      assert (Hb : (bpow (53 + ec) <= bpow (52 + e'))%R) by (apply bpow_le; lia).
      assert (HNk : 2 ^ 52 <= N).
      { apply Hdown. rewrite <- bpow_IZR by lia.
        replace (bpow 52) with (bpow (52 + e') * bpow (- e'))%R.
        - apply Rmult_le_compat_r; lra.
        - rewrite <- bpow_add. f_equal. lia. }
      apply IZR_le in HNk. rewrite <- bpow_IZR in HNk by lia.
      rewrite (bpow_add 52 e') in Hb.
      assert ((bpow 52 * bpow e' <= IZR N * bpow e')%R)
        by (apply Rmult_le_compat_r; lra).
      lra. }
  destruct Hp as [[-> ->]|(HN0 & M & e'' & HM & HcM & ->)].
  - rewrite Rmult_0_l in Hle. nra.
  - rewrite <- HM in Hle.
    destruct (Z.leb_spec e'' (emax - prec)) as [_|Hover]; [|done].
    by apply SFleb_finite.
Qed.


(** *** Positive binary64 numbers *)

Lemma SFpositive_ltb x :
  SFltb (S754_zero false) x = true -> SFpositive x = true.
Proof. by destruct x as [[]|[]| |[]]. Qed.

Lemma SFpositive_nonzero x :
  SFpositive x = true -> SFeqb x (S754_zero false) = false.
Proof. by destruct x as [[]|[]| |[]]. Qed.

Lemma SFleb_refl x : SFpositive x = true -> SFleb x x = true.
Proof.
  destruct x as [[]|[]| |[] m e]; try done. intros _.
  unfold SFleb, SFcompare. by rewrite Z.compare_refl, Pos.compare_cont_refl.
Qed.

(** The quotient of two positive finite numbers is a signless zero, a
    positive finite number or plus infinity. *)
Lemma SFdiv_finite_shape m1 e1 m2 e2 :
  let q := SFdiv prec emax (S754_finite false m1 e1) (S754_finite false m2 e2) in
  q = S754_zero false \/ SFpositive q = true.
Proof.
  destruct (SFdiv_rounds m1 e1 m2 e2) as (e' & N & _ & _ & _ & Hp & _).
  destruct Hp as [[_ ->]|(_ & M & e'' & _ & _ & ->)]; [by left|right].
  by destruct (e'' <=? emax - prec).
Qed.

Lemma valid_binary_canonical s m e :
  valid_binary (S754_finite s m e) = true ->
  canonical_mantissa prec emax m e = true /\ e <= emax - prec.
Proof.
  unfold SpecFloat.valid_binary, bounded.
  intros [Hc He%Z.leb_le]%andb_prop. done.
Qed.

(** The step behind the height bound: when the quotient [x / y] computes
    to less than [a], then [x / a] computes to at most [y]. *)
Lemma SFdiv_swap x y a :
  SFpositive x = true -> SFpositive y = true ->
  valid_binary y = true -> valid_binary a = true ->
  SFltb (SFdiv prec emax x y) a = true ->
  SFpositive a = true /\ SFleb (SFdiv prec emax x a) y = true.
Proof.
  intros Hx Hy Hvy Hva Hlt.
  destruct x as [[]|[]| |[] m1 e1]; try done.
  { (* an infinite width: the box ratio is infinite or undefined *)
    destruct y as [[]|[]| |[] m2 e2]; try done.
    by destruct a as [[]|[]| |[] ? ?]. }
  destruct y as [[]|[]| |[] m2 e2]; try done.
  { (* an infinite height: the box ratio is zero *)
    destruct a as [[]|[]| |[] ma ea]; try done.
    split; [done|].
    destruct (SFdiv_finite_shape m1 e1 ma ea) as [Hq|Hq].
    - by rewrite Hq.
    - by destruct (SFdiv _ _ _ (S754_finite false ma ea)) as [[]|[]| |[] ? ?]. }
  assert (Ha : SFpositive a = true).
  { destruct (SFdiv_finite_shape m1 e1 m2 e2) as [Hq|Hq].
    - rewrite Hq in Hlt. by apply SFpositive_ltb.
    - destruct (SFdiv _ _ _ _) as [[]|[]| |[] ? ?]; try done;
        by destruct a as [[]|[]| |[] ? ?]. }
  split; [done|].
  destruct a as [[]|[]| |[] ma ea]; try done.
  apply valid_binary_canonical in Hvy as [Hcy Hey].
  apply valid_binary_canonical in Hva as [Hca _].
  apply SFdiv_le; [done|done|].
  apply SFltb_not_SFleb in Hlt.
  assert (Hm1 : (0 < IZR (Zpos m1))%R) by (apply IZR_lt; lia).
  assert (Hm2 : (0 < IZR (Zpos m2))%R) by (apply IZR_lt; lia).
  assert (Hma : (0 < IZR (Zpos ma))%R) by (apply IZR_lt; lia).
  pose proof (bpow_pos e1). pose proof (bpow_pos e2). pose proof (bpow_pos ea).
  set (X := (IZR (Zpos m1) * bpow e1)%R) in *.
  set (Y := (IZR (Zpos m2) * bpow e2)%R) in *.
  set (A := (IZR (Zpos ma) * bpow ea)%R) in *.
  assert (HX : (0 < X)%R) by (subst X; nra).
  assert (HY : (0 < Y)%R) by (subst Y; nra).
  assert (HA : (0 < A)%R) by (subst A; nra).
  destruct (Rle_lt_dec A (X / Y)) as [Hle|Hgt].
  { by rewrite (SFdiv_ge _ _ _ _ _ _ Hca Hle) in Hlt. }
  apply Rlt_le. apply (Rmult_lt_reg_r A); [done|].
  unfold Rdiv. rewrite Rmult_assoc, Rinv_l, Rmult_1_r by lra.
  apply (Rmult_lt_reg_r (/ Y)); [by apply Rinv_0_lt_compat|].
  rewrite (Rmult_comm Y A), Rmult_assoc, Rinv_r, Rmult_1_r by lra. done.
Qed.

(** *** Conversion of a positive integer *)

Lemma shl_align_spec mx ex :
  let '(mz, ez) := shl_align mx ex (fexp prec emax (Zpos (digits2_pos mx) + ex)) in
  (IZR (Zpos mz) * bpow ez = IZR (Zpos mx) * bpow ex)%R /\
  ez <= fexp prec emax (Zdigits2 (Zpos mz) + ez) /\
  fexp prec emax (Zdigits2 (Zpos mz) + ez)
  = fexp prec emax (Zdigits2 (Zpos mx) + ex).
Proof.
  unfold shl_align.
  change (Z.pos (digits2_pos mx)) with (Zdigits2 (Zpos mx)).
  set (ex' := fexp prec emax (Zdigits2 (Zpos mx) + ex)).
  destruct (ex' - ex) as [|d|d] eqn:Ed.
  - split; [done|]. split; [lia|done].
  - split; [done|]. split; [lia|done].
  - change (Pos.iter xO mx d) with (shift_pos d mx).
    assert (Hm : Zpos (shift_pos d mx) = Zpos mx * 2 ^ Zpos d).
    { rewrite shift_pos_correct. change (Z.pow_pos 2 d) with (2 ^ Zpos d). lia. }
    assert (Hd : Zdigits2 (Zpos (shift_pos d mx)) = Zdigits2 (Zpos mx) + Zpos d).
    { destruct (Zdigits2_bounds (Zpos mx)) as (H0 & Hlo & Hhi); [done|].
      assert (0 < 2 ^ Zpos d) by (by apply Z.pow_pos_nonneg).
      apply Zdigits2_unique; [lia|]. rewrite Hm.
      replace (Zdigits2 (Zpos mx) + Zpos d - 1)
        with (Zdigits2 (Zpos mx) - 1 + Zpos d) by lia.
      rewrite !Z.pow_add_r by lia. nia. }
    rewrite Hd. replace (Zdigits2 (Zpos mx) + Zpos d + ex')
      with (Zdigits2 (Zpos mx) + ex) by lia.
    fold ex'. split; [|split; [lia|done]].
    rewrite Hm, mult_IZR, <- bpow_IZR, Rmult_assoc, <- bpow_add by lia.
    do 2 f_equal. lia.
Qed.

Lemma binary_normalize_positive p :
  SFpositive (binary_normalize prec emax (Zpos p) 0 false) = true.
Proof.
  cbn [binary_normalize]. unfold binary_round.
  pose proof (shl_align_spec p 0) as Hal.
  destruct (shl_align p 0 _) as [mz ez]. destruct Hal as (Hv & Hdig & He').
  destruct (binary_round_aux_spec false (Zpos mz) ez loc_Exact
              (IZR (Zpos mz)) ltac:(lia) eq_refl Hdig)
    as (N & _ & [_ Hdown] & Hp).
  rewrite He' in *. set (e' := fexp prec emax (Zdigits2 (Zpos p) + 0)) in *.
  assert (HN : 1 <= N).
  { apply Hdown. replace (ez - e') with (ez + - e') by lia.
    rewrite bpow_add, <- Rmult_assoc, Hv, bpow_0, Rmult_1_r.
    destruct (Zdigits2_bpow (Zpos p)) as [Hlo _]; [done|].
    destruct (Zdigits2_bounds (Zpos p)) as (Hd & _); [done|].
    assert (Hb : (bpow 0 <= bpow (Zdigits2 (Zpos p) - 1 + - e'))%R).
    { apply bpow_le. subst e'. rewrite fexp_eq. lia. }
    rewrite bpow_add, bpow_0 in Hb. pose proof (bpow_pos (- e')). nra. }
  destruct Hp as [[-> _]|(_ & M & e'' & _ & _ & ->)]; [lia|].
  by destruct (e'' <=? emax - prec).
Qed.


(** *** The primitive operations *)

Lemma float_positive (x : float) :
  PrimFloat.ltb 0 x = true -> SFpositive (Prim2SF x) = true.
Proof. rewrite FloatAxioms.ltb_spec. apply SFpositive_ltb. Qed.

Lemma float_nonzero (x : float) :
  SFpositive (Prim2SF x) = true -> PrimFloat.eqb x 0 = false.
Proof. rewrite FloatAxioms.eqb_spec. apply SFpositive_nonzero. Qed.

Lemma float_leb_refl (x : float) :
  SFpositive (Prim2SF x) = true -> PrimFloat.leb x x = true.
Proof. rewrite FloatAxioms.leb_spec. apply SFleb_refl. Qed.

Lemma float_of_Z_positive (z : Z) :
  0 < z < 2 ^ 63 -> SFpositive (Prim2SF (float_of_Z z)) = true.
Proof.
  intros Hz. destruct z as [|p|p]; [lia| |lia]. cbn [float_of_Z].
  rewrite of_uint63_spec, Uint63.of_Z_spec.
  rewrite Z.mod_small by (change wB with (2 ^ 63); lia).
  apply binary_normalize_positive.
Qed.

Lemma float_div_swap (x y a : float) :
  PrimFloat.ltb 0 x = true -> PrimFloat.ltb 0 y = true ->
  PrimFloat.ltb (x / y) a = true ->
  PrimFloat.eqb a 0 = false /\ PrimFloat.leb (x / a) y = true.
Proof.
  intros Hx%float_positive Hy%float_positive Hlt.
  rewrite FloatAxioms.ltb_spec, div_spec in Hlt.
  destruct (SFdiv_swap _ _ _ Hx Hy (Prim2SF_valid y) (Prim2SF_valid a) Hlt)
    as [Ha Hle].
  split; [by apply float_nonzero|].
  by rewrite FloatAxioms.leb_spec, div_spec.
Qed.

End Rounding.

(** C1 (as stated, on binary64): a 7x12 image fitted to the box 126.0 x 216.0
    has the aspect ratio of the box, takes the fit-to-height branch, and
    its computed width [216.0 * (7 / 12)] rounds to 126.00000000000001,
    which is larger than [max_width]. And the ratio of the fitted sides is
    not the aspect ratio of the image: a 13x1 image in the same box takes
    the fit-to-width branch and gets 126.0 x 9.692307692307692, of ratio
    13.000000000000002; a 7x19 image takes the fit-to-height branch and
    gets 79.57894736842105 x 216.0, of ratio 0.368421052631579 where
    [7 / 19] is 0.3684210526315789. *)
Lemma fit_to_box_rounds_past_box :
  ((0 < width image_7x12)%Z /\ (0 < height image_7x12)%Z /\
   PrimFloat.ltb 0 126 = true /\ PrimFloat.ltb 0 216 = true /\
   exists nw nh : float,
     ImageProcessor.fit_to_box image_7x12 126%float 216%float
       = Ok (image_7x12, nw, nh) /\
     PrimFloat.leb nw 126 = false) /\
  ((0 < width image_13x1)%Z /\ (0 < height image_13x1)%Z /\
   exists nw nh : float,
     ImageProcessor.fit_to_box image_13x1 126%float 216%float
       = Ok (image_13x1, nw, nh) /\
     nw = 126%float /\
     PrimFloat.eqb (nw / nh) (float_of_Z 13 / float_of_Z 1) = false) /\
  ((0 < width image_7x19)%Z /\ (0 < height image_7x19)%Z /\
   exists nw nh : float,
     ImageProcessor.fit_to_box image_7x19 126%float 216%float
       = Ok (image_7x19, nw, nh) /\
     nh = 216%float /\
     PrimFloat.eqb (nw / nh) (float_of_Z 7 / float_of_Z 19) = false).
Proof.
  split; [|split].
  - repeat split; try reflexivity.
    eexists _, _. split; reflexivity.
  - repeat split; try reflexivity.
    eexists _, _. split; [reflexivity|]. split; reflexivity.
  - repeat split; try reflexivity.
    eexists _, _. split; [reflexivity|]. split; reflexivity.
Qed.

(** C1 (amended), on binary64: for an image with positive sides (below
    2^63 pixels) and a box with positive sides, [fit_to_box] returns the
    image with the two numbers of the branch taken, every operation being
    the binary64 one; the size is equal to the box on one axis, the height
    never exceeds [max_height], and the width does not exceed [max_width]
    when the fit-to-width branch is taken. *)
Theorem fit_to_box_dimensions (image : Image) (max_width max_height : float) :
  (0 < width image < 2 ^ 63)%Z -> (0 < height image < 2 ^ 63)%Z ->
  PrimFloat.ltb 0 max_width = true -> PrimFloat.ltb 0 max_height = true ->
  let img_aspect :=
    PrimFloat.div (float_of_Z (width image)) (float_of_Z (height image)) in
  let box_aspect := PrimFloat.div max_width max_height in
  exists nw nh : float,
    ImageProcessor.fit_to_box image max_width max_height = Ok (image, nw, nh) /\
    (if PrimFloat.ltb box_aspect img_aspect
     then nw = max_width /\ nh = PrimFloat.div max_width img_aspect
     else nh = max_height /\ nw = PrimFloat.mul max_height img_aspect) /\
    (nw = max_width \/ nh = max_height) /\
    PrimFloat.leb nh max_height = true /\
    (PrimFloat.ltb box_aspect img_aspect = true ->
     PrimFloat.leb nw max_width = true).
Proof.
  intros Hw Hh Hmw Hmh img_aspect box_aspect.
  pose proof (float_nonzero _ (float_of_Z_positive _ Hh)) as Hh0.
  pose proof (float_nonzero _ (float_positive _ Hmh)) as Hmh0.
  unfold ImageProcessor.fit_to_box, width, height in *.
  destruct (size image) as [w h]. cbn [fst snd] in *.
  unfold truediv. cbn [is_zero of_Z div gtb mul float_PyNum].
  change 0%float with PrimFloat.zero in Hh0, Hmh0.
  rewrite Hh0, Hmh0. cbn [mbind result_bind]. fold img_aspect box_aspect.
  destruct (PrimFloat.ltb box_aspect img_aspect) eqn:Hgt.
  - destruct (float_div_swap _ _ _ Hmw Hmh Hgt) as [Ha0 Hle].
    change 0%float with PrimFloat.zero in Ha0.
    rewrite Ha0. cbn [mbind result_bind mret result_ret].
    exists max_width, (max_width / img_aspect)%float.
    split; [done|]. split; [done|]. split; [by left|]. split; [done|].
    intros _. by apply float_leb_refl, float_positive.
  - cbn [mret result_ret].
    exists (max_height * img_aspect)%float, max_height.
    split; [done|]. split; [done|]. split; [by right|].
    split; [|done]. by apply float_leb_refl, float_positive.
Qed.

Lemma fit_to_box_dimensions_witness :
  exists nw nh : float,
    ImageProcessor.fit_to_box image_7x12 270%float 360%float
      = Ok (image_7x12, nw, nh) /\
    (nw = 270%float \/ nh = 360%float) /\
    PrimFloat.leb nh 360 = true.
Proof.
  destruct (fit_to_box_dimensions image_7x12 270%float 360%float)
    as (nw & nh & Hfit & _ & Htight & Hheight & _);
    [split; reflexivity | split; reflexivity | reflexivity | reflexivity |].
  exists nw, nh. split; [exact Hfit|]. split; [exact Htight|exact Hheight].
Defined.

(** ** Layout *)

Section Layout.
Import ImageProcessor LayoutEngine.
Context {F : Type} `{PyNum F} `{Pillow}.

(** One step of the [io] monad. *)
Lemma io_bind_Ok {A B} (m : io F A) (f : A -> io F B) w b w' :
  (m ≫= f) w = (Ok b, w') ->
  exists a w1, m w = (Ok a, w1) /\ f a w1 = (Ok b, w').
Proof.
  unfold mbind, io_bind. destruct (m w) as [[a|e] w1]; [|discriminate].
  intros Hf. by exists a, w1.
Qed.

Lemma draw_quadrant_Ok self config quad_x quad_y (w : world F) t w' :
  _draw_quadrant self config quad_x quad_y w = (Ok t, w') ->
  exists p,
    place self config quad_x quad_y = Ok p /\
    t = Tmp (next_tmp w) /\
    w' = {| fs := <[t := Jpeg (raster p)]> (<[t := EmptyFile]> (fs w));
            canvas :=
              {| filename := filename (canvas w);
                 pagesize := pagesize (canvas w);
                 ops := (ops (canvas w) ++
                         [DrawImage t (raster p) (at_x p) (at_y p)
                                    (draw_width p) (draw_height p) true])%list |};
            next_tmp := S (next_tmp w);
            env := env w |}.
Proof.
  unfold _draw_quadrant, place. intros Hrun.
  apply io_bind_Ok in Hrun as (source & w1 & Hsrc & Hrun).
  unfold lift in Hsrc. injection Hsrc as Hsrc <-. rewrite Hsrc. simpl.
  apply io_bind_Ok in Hrun as ([[i dw] dh] & w1 & Hfit & Hrun).
  unfold lift in Hfit. injection Hfit as Hfit <-.
  fold (available_width self) (available_height self) in Hfit.
  rewrite Hfit. simpl.
  apply io_bind_Ok in Hrun as (tmp & w1 & Htmp & Hrun).
  unfold NamedTemporaryFile in Htmp. injection Htmp as <- <-.
  apply io_bind_Ok in Hrun as ([] & w2 & Hsave & Hrun).
  unfold image_save in Hsave. simpl in Hsave.
  destruct (write_fails _ _); [discriminate|].
  destruct (empty_image _); [discriminate|].
  destruct (jpeg_mode _); simpl in Hsave; [|discriminate].
  injection Hsave as <-.
  apply io_bind_Ok in Hrun as ([] & w3 & Hdraw & Hrun).
  unfold drawImage in Hdraw. simpl in Hdraw.
  destruct (read_fails _ _); [discriminate|].
  rewrite lookup_insert_eq in Hdraw.
  unfold record_op in Hdraw. simpl in Hdraw. injection Hdraw as <-.
  injection Hrun as <- <-.
  eexists. split; [reflexivity|]. split; reflexivity.
Qed.

Lemma draw_quadrants_Ok self qs tfs (w : world F) tfs' w' :
  draw_quadrants self qs tfs w = (Ok tfs', w') ->
  exists draws ns,
    Forall2 (draws_quadrant self) (drawn_quadrants qs) draws /\
    ops (canvas w') = (ops (canvas w) ++ draws)%list /\
    filename (canvas w') = filename (canvas w) /\
    pagesize (canvas w') = pagesize (canvas w) /\
    env w' = env w /\
    tfs' = (tfs ++ map Tmp ns)%list /\
    (forall u, fs w' !! User u = fs w !! User u).
Proof.
  revert tfs w. induction qs as [|[[config quad_x] quad_y] rest IH];
    intros tfs w Hrun.
  - injection Hrun as <- <-. exists [], []. simpl.
    rewrite !app_nil_r. repeat split; done.
  - cbn [draw_quadrants] in Hrun.
    apply io_bind_Ok in Hrun as (tfs1 & w1 & Hq & Hrun).
    apply IH in Hrun as (draws & ns & Hdraws & Hops & Hfn & Hps & Henv & -> & Hfs).
    destruct config as [c|]; cbn [drawn_quadrants].
    2:{ injection Hq as <- <-. exists draws, ns. repeat split; done. }
    destruct (occupied (Some c)).
    2:{ injection Hq as <- <-. exists draws, ns. repeat split; done. }
    apply io_bind_Ok in Hq as (t & w2 & Hq & Hret).
    injection Hret as <- <-.
    apply draw_quadrant_Ok in Hq as (p & Hp & -> & ->). simpl in *.
    exists (DrawImage (Tmp (next_tmp w)) (raster p) (at_x p) (at_y p)
                      (draw_width p) (draw_height p) true :: draws),
           (next_tmp w :: ns).
    split.
    { constructor; [|done]. by exists p, (Tmp (next_tmp w)). }
    rewrite Hops, <- !app_assoc. simpl.
    repeat split; try done.
    intros u. rewrite Hfs, !lookup_insert_ne; done.
Qed.

Lemma remove_temp_files_Ok temp_files (w : world F) :
  exists w',
    remove_temp_files temp_files w = (Ok tt, w') /\
    canvas w' = canvas w /\
    (forall p, p ∉ temp_files -> fs w' !! p = fs w !! p).
Proof.
  revert w. induction temp_files as [|t rest IH]; intros w.
  - by exists w.
  - simpl. unfold mbind, io_bind, try_pass, os_remove.
    assert (Hstep : exists w1,
      (let (r, w'0) := (if remove_fails (env w) t then (Raise OSError, w)
                        else match fs w !! t with
                             | Some _ => (Ok tt, set_fs w (delete t (fs w)))
                             | None => (Raise FileNotFoundError, w)
                             end) in
       match r with Ok _ => (Ok tt, w'0) | Raise _ => (Ok tt, w'0) end)
      = (Ok tt, w1) /\ canvas w1 = canvas w /\
        (forall p, p ≠ t -> fs w1 !! p = fs w !! p)).
    { destruct (remove_fails (env w) t); [by exists w|].
      destruct (fs w !! t); [|by exists w].
      eexists. split; [reflexivity|]. split; [done|].
      intros p Hp. simpl. by rewrite lookup_delete_ne. }
    destruct Hstep as (w1 & -> & Hc & Hfs).
    destruct (IH w1) as (w' & -> & Hc' & Hfs').
    exists w'. split; [done|]. split; [congruence|].
    intros p Hp. rewrite Hfs', Hfs; [done| |]; set_solver.
Qed.

Lemma draw_grid_run self (w : world F) :
  _draw_grid self w =
    (Ok tt, set_canvas w {| filename := filename (canvas w);
                            pagesize := pagesize (canvas w);
                            ops := (ops (canvas w) ++ grid_ops self)%list |}).
Proof.
  unfold _draw_grid, grid_ops, mbind, io_bind, record_op. simpl.
  by rewrite <- !app_assoc.
Qed.

(** A render that returns has put on the page the images of the occupied
    quadrants, in quadrant order, then the grid if it is enabled, and has
    written that page to the output path. *)
Lemma generate_pdf_Ok self output_path q1 q2 q3 q4 (w : world F) w' :
  generate_pdf self output_path q1 q2 q3 q4 w = (Ok tt, w') ->
  exists draws,
    Forall2 (draws_quadrant self) (drawn_quadrants (quadrants q1 q2 q3 q4)) draws /\
    ops (canvas w') =
      (draws ++ if show_grid self then grid_ops self else [])%list /\
    fs w' !! User output_path = Some (Pdf letter (ops (canvas w'))).
Proof.
  unfold generate_pdf. intros Hrun.
  apply io_bind_Ok in Hrun as ([] & w1 & Hnew & Hrun).
  injection Hnew as <-.
  apply io_bind_Ok in Hrun as (tfs & w2 & Hloop & Hrun).
  apply draw_quadrants_Ok in Hloop
    as (draws & ns & Hdraws & Hops & Hfn & Hps & Henv & -> & _).
  simpl in *.
  apply io_bind_Ok in Hrun as ([] & w3 & Hgrid & Hrun).
  apply io_bind_Ok in Hrun as ([] & w4 & Hsave & Hrun).
  destruct (remove_temp_files_Ok (map Tmp ns) w4) as (w5 & Hrm & Hc & Hfs).
  rewrite Hrm in Hrun. injection Hrun as <-.
  assert (Hw3 : ops (canvas w3) =
                  (draws ++ if show_grid self then grid_ops self else [])%list
                /\ filename (canvas w3) = User output_path
                /\ pagesize (canvas w3) = letter
                /\ env w3 = env w2).
  { destruct (show_grid self).
    - rewrite draw_grid_run in Hgrid. injection Hgrid as <-. simpl.
      by rewrite Hops, Hfn, Hps.
    - injection Hgrid as <-. by rewrite Hops, Hfn, Hps, app_nil_r. }
  destruct Hw3 as (Hops3 & Hfn3 & Hps3 & _).
  unfold canvas_save in Hsave. destruct (write_fails _ _); [discriminate|].
  injection Hsave as <-. simpl in *.
  exists draws. split; [done|]. rewrite Hc. simpl. split; [done|].
  rewrite Hfs.
  - simpl. by rewrite Hfn3, Hps3, lookup_insert_eq.
  - intros Hin. apply list_elem_of_fmap in Hin as (n & Hn & _). discriminate.
Qed.

Lemma place_Ok self config quad_x quad_y p :
  place self config quad_x quad_y = Ok p ->
  exists source w h,
    image config = Some source /\
    let rotated := rotate_image source (rotation config) in
    fit_to_box rotated (available_width self) (available_height self)
      = Ok (rotated, w, h) /\
    p = {| raster := rotated;
           at_x := x_offset self quad_x w; at_y := y_offset self quad_y h;
           draw_width := w; draw_height := h |}.
Proof.
  unfold place. destruct (image config) as [source|]; [|discriminate]. simpl.
  destruct (fit_to_box _ _ _) as [[[i w] h]|] eqn:Hfit; [|discriminate].
  simpl. intros [= <-]. exists source, w, h.
  pose proof (fit_to_box_Ok _ _ _ _ _ _ Hfit) as [-> _]. done.
Qed.

Lemma drawn_quadrants_slot (qs : list (option QuadrantConfig * Z * Z)) k c quad_x quad_y :
  qs !! k = Some (Some c, quad_x, quad_y) ->
  is_Some (image c) ->
  drawn_quadrants qs !! slot qs k = Some (c, quad_x, quad_y).
Proof.
  intros Hk Hocc. unfold slot. revert k Hk.
  induction qs as [|[[config x] y] rest IH]; intros [|k] Hk; try discriminate.
  - injection Hk as -> -> ->. cbn [take drawn_quadrants occupied].
    by rewrite bool_decide_eq_true_2.
  - cbn [take drawn_quadrants]. simpl in Hk. specialize (IH k Hk).
    destruct config as [c'|]; [|done].
    destruct (occupied (Some c')); done.
Qed.

(** The image of an occupied quadrant on the page of a render that
    returns. *)
Lemma generate_pdf_quadrant self output_path q1 q2 q3 q4 (w : world F) w'
    k config quad_x quad_y :
  generate_pdf self output_path q1 q2 q3 q4 w = (Ok tt, w') ->
  quadrants q1 q2 q3 q4 !! k = Some (Some config, quad_x, quad_y) ->
  is_Some (image config) ->
  exists o,
    ops (canvas w') !! slot (quadrants q1 q2 q3 q4) k = Some o /\
    draws_quadrant self (config, quad_x, quad_y) o.
Proof.
  intros Hrun Hk Hocc.
  apply generate_pdf_Ok in Hrun as (draws & Hdraws & Hops & _).
  pose proof (drawn_quadrants_slot _ _ _ _ _ Hk Hocc) as Hslot.
  destruct (Forall2_lookup_l _ _ _ _ _ Hdraws Hslot) as (o & Ho & Hdq).
  exists o. split; [|done].
  rewrite Hops. by apply lookup_app_l_Some.
Qed.

(** *** When a render returns *)




End Layout.

Section Binary64.
Import ImageProcessor LayoutEngine.
Context `{Pillow}.

(** The constructor on binary64: the page is 612 x 792, a quadrant is
    306 x 396 and the margin is 72 points an inch. *)
Lemma init_binary64 (margin_inches : float) (grid : bool) :
  __init__ margin_inches grid =
    Ok {| margin := (margin_inches * 72)%float; show_grid := grid;
          page_width := 612%float; page_height := 792%float;
          quadrant_width := 306%float; quadrant_height := 396%float |}.
Proof. reflexivity. Qed.

Lemma grid_ops_binary64 (margin_inches : float) (grid : bool) self :
  __init__ margin_inches grid = Ok self ->
  grid_ops self =
    [ SetStrokeColorRGB 0.8%float 0.8%float 0.8%float;
      SetLineWidth 1%float;
      Line 306%float 0%float 306%float 792%float;
      Line 0%float 396%float 612%float 396%float ].
Proof. rewrite init_binary64. by intros [= <-]. Qed.

End Binary64.

(** C2: in a render that returns, the image of every occupied quadrant is
    drawn with its lower-left corner at
    [quad_x * 306 + margin + (drawable_width - draw_width) / 2],
    [quad_y * 396 + margin + (drawable_height - draw_height) / 2], where
    Q1..Q4 have the selectors (0,1), (1,1), (0,0), (1,0) and the drawable
    size is 306 and 396 minus twice the margin. *)
Theorem draw_quadrant_offsets `{Pillow} :
  forall (margin_inches : float) (grid : bool) self output_path q1 q2 q3 q4
         (w w' : world float),
    LayoutEngine.__init__ margin_inches grid = Ok self ->
    LayoutEngine.generate_pdf self output_path q1 q2 q3 q4 w = (Ok tt, w') ->
    LayoutEngine.quadrants q1 q2 q3 q4
      = [ (q1, 0, 1); (q2, 1, 1); (q3, 0, 0); (q4, 1, 0) ] /\
    LayoutEngine.quadrant_width self = 306%float /\
    LayoutEngine.quadrant_height self = 396%float /\
    forall k config quad_x quad_y source,
      LayoutEngine.quadrants q1 q2 q3 q4 !! k = Some (Some config, quad_x, quad_y) ->
      image config = Some source ->
      let margin := (margin_inches * 72)%float in
      let drawable_width := (306 - 2 * margin)%float in
      let drawable_height := (396 - 2 * margin)%float in
      let rotated := ImageProcessor.rotate_image source (rotation config) in
      exists temp_file draw_width draw_height,
        ImageProcessor.fit_to_box rotated drawable_width drawable_height
          = Ok (rotated, draw_width, draw_height) /\
        ops (canvas w') !! LayoutEngine.slot (LayoutEngine.quadrants q1 q2 q3 q4) k =
          Some (DrawImage temp_file rotated
                  (of_Z quad_x * 306 + margin
                   + (drawable_width - draw_width) / 2)%float
                  (of_Z quad_y * 396 + margin
                   + (drawable_height - draw_height) / 2)%float
                  draw_width draw_height true).
Proof.
  intros m g self out q1 q2 q3 q4 w w' Hinit Hrun.
  rewrite init_binary64 in Hinit. injection Hinit as <-.
  split; [reflexivity|]. split; [reflexivity|]. split; [reflexivity|].
  intros k config quad_x quad_y source Hk Hsrc.
  destruct (generate_pdf_quadrant _ _ _ _ _ _ _ _ _ _ _ _ Hrun Hk)
    as (o & Ho & p & t & Hp & ->); [by rewrite Hsrc|].
  cbn [fst snd] in Hp. apply place_Ok in Hp as (source' & dw & dh & Hsrc' & Hfit & ->).
  rewrite Hsrc in Hsrc'. injection Hsrc' as <-.
  exists t, dw, dh. split; [exact Hfit | exact Ho].
Qed.

Lemma draw_quadrant_offsets_witness :
  exists (w' : world float) temp_file draw_width draw_height,
    ops (canvas w') !! 0%nat =
      Some (DrawImage temp_file image_400x300
              (0 * 306 + 0.25 * 72 + (306 - 2 * (0.25 * 72) - draw_width) / 2)%float
              (1 * 396 + 0.25 * 72 + (396 - 2 * (0.25 * 72) - draw_height) / 2)%float
              draw_width draw_height true).
Proof.
  destruct (LayoutEngine.generate_pdf engine_quarter_inch "out.pdf"
              (upright image_400x300) None None None fresh_world)
    as [r w'] eqn:Hrun.
  assert (Hr : r = Ok tt) by (by vm_compute in Hrun; injection Hrun as <- _).
  subst r.
  destruct (draw_quadrant_offsets 0.25%float true engine_quarter_inch "out.pdf"
              (upright image_400x300) None None None fresh_world w'
              eq_refl Hrun) as (_ & _ & _ & Hq).
  destruct (Hq 0%nat {| image := Some image_400x300; rotation := 0 |} 0 1
              image_400x300 eq_refl eq_refl) as (t & dw & dh & _ & Hop).
  by exists w', t, dw, dh.
Defined.

(** C3 (as stated): the constructor returns an engine for a margin of -1
    inch and for a margin of 3 inches, which is 216 points and more than
    half of the quadrant width; no error is raised. *)
Lemma init_accepts_any_margin :
  PrimFloat.ltb (-1) 0 = true /\
  is_Ok (LayoutEngine.__init__ (-1)%float true) = true /\
  PrimFloat.leb (306 / 2) (3 * 72) = true /\
  is_Ok (LayoutEngine.__init__ 3%float true) = true.
Proof. repeat split; reflexivity. Qed.

(** C3 (amended): constructing the layout engine succeeds for every margin,
    negative and oversized ones included: it stores the margin times 72,
    the grid flag, the 612 x 792 page and the 306 x 396 quadrant, and
    validates nothing. *)
Theorem init_total :
  forall (margin_inches : float) (grid : bool),
    LayoutEngine.__init__ margin_inches grid =
      Ok {| LayoutEngine.margin := (margin_inches * 72)%float;
            LayoutEngine.show_grid := grid;
            LayoutEngine.page_width := 612%float;
            LayoutEngine.page_height := 792%float;
            LayoutEngine.quadrant_width := 306%float;
            LayoutEngine.quadrant_height := 396%float |}.
Proof. intros. reflexivity. Qed.

(** C7: in a render that returns, the page holds one image per occupied
    quadrant and then, when the grid is enabled, the light gray stroke of
    width 1, the vertical line at x = 306 from y = 0 to 792 and the
    horizontal line at y = 396 from x = 0 to 612; when it is disabled,
    nothing follows the images. That page is what the output file holds. *)
Theorem grid_lines_after_images `{Pillow} :
  forall (margin_inches : float) (grid : bool) self output_path q1 q2 q3 q4
         (w w' : world float),
    LayoutEngine.__init__ margin_inches grid = Ok self ->
    LayoutEngine.generate_pdf self output_path q1 q2 q3 q4 w = (Ok tt, w') ->
    exists draws,
      Forall (fun o => is_Some (LayoutEngine.placed o)) draws /\
      length draws =
        length (LayoutEngine.drawn_quadrants (LayoutEngine.quadrants q1 q2 q3 q4)) /\
      ops (canvas w') =
        (draws ++
         if grid then
           [ SetStrokeColorRGB 0.8%float 0.8%float 0.8%float;
             SetLineWidth 1%float;
             Line 306%float 0%float 306%float 792%float;
             Line 0%float 396%float 612%float 396%float ]
         else [])%list /\
      fs w' !! User output_path =
        Some (Pdf (612%float, 792%float) (ops (canvas w'))).
Proof.
  intros m g self out q1 q2 q3 q4 w w' Hinit Hrun.
  apply generate_pdf_Ok in Hrun as (draws & Hdraws & Hops & Hfile).
  pose proof (grid_ops_binary64 _ _ _ Hinit) as Hgrid.
  rewrite init_binary64 in Hinit. injection Hinit as <-.
  exists draws. split; [|split; [|split]].
  - clear -Hdraws. induction Hdraws as [|q o qs os (p & t & _ & ->) _ IH];
      constructor; [by eexists|done].
  - symmetry. by eapply Forall2_length.
  - rewrite Hops. simpl. by rewrite Hgrid.
  - exact Hfile.
Qed.

Lemma grid_lines_after_images_witness :
  exists (w' : world float) draws,
    length draws = 1%nat /\
    ops (canvas w') =
      (draws ++ [ SetStrokeColorRGB 0.8%float 0.8%float 0.8%float;
                  SetLineWidth 1%float;
                  Line 306%float 0%float 306%float 792%float;
                  Line 0%float 396%float 612%float 396%float ])%list.
Proof.
  destruct (LayoutEngine.generate_pdf engine_quarter_inch "out.pdf"
              (upright image_400x300) None None None fresh_world)
    as [r w'] eqn:Hrun.
  assert (Hr : r = Ok tt) by (by vm_compute in Hrun; injection Hrun as <- _).
  subst r.
  destruct (grid_lines_after_images 0.25%float true engine_quarter_inch "out.pdf"
              (upright image_400x300) None None None fresh_world w'
              eq_refl Hrun) as (draws & _ & Hlen & Hops & _).
  by exists w', draws.
Defined.

(** C8: the placement of a quadrant's image (the rotated raster, the draw
    width and height, the offsets) is the same in two renders that agree
    on that quadrant, whatever the other three quadrants, the output paths
    and the states of the disk are: in both it is [place] of the engine,
    the quadrant's configuration and the quadrant's coordinates. *)
Theorem quadrant_geometry_independent :
  forall (F : Type) (N : PyNum F) (P : Pillow) (self : LayoutEngine.LayoutEngine F)
         out1 out2 q1 q2 q3 q4 q1' q2' q3' q4' (w1 w1' w2 w2' : world F)
         k config quad_x quad_y,
    LayoutEngine.quadrants q1 q2 q3 q4 !! k = Some (Some config, quad_x, quad_y) ->
    LayoutEngine.quadrants q1' q2' q3' q4' !! k = Some (Some config, quad_x, quad_y) ->
    is_Some (image config) ->
    LayoutEngine.generate_pdf self out1 q1 q2 q3 q4 w1 = (Ok tt, w1') ->
    LayoutEngine.generate_pdf self out2 q1' q2' q3' q4' w2 = (Ok tt, w2') ->
    exists p,
      LayoutEngine.place self config quad_x quad_y = Ok p /\
      (ops (canvas w1') !! LayoutEngine.slot (LayoutEngine.quadrants q1 q2 q3 q4) k)
        ≫= LayoutEngine.placed = Some p /\
      (ops (canvas w2') !! LayoutEngine.slot (LayoutEngine.quadrants q1' q2' q3' q4') k)
        ≫= LayoutEngine.placed = Some p.
Proof.
  intros F N P self out1 out2 q1 q2 q3 q4 q1' q2' q3' q4' w1 w1' w2 w2'
         k config quad_x quad_y Hk Hk' Hocc Hrun1 Hrun2.
  destruct (generate_pdf_quadrant _ _ _ _ _ _ _ _ _ _ _ _ Hrun1 Hk Hocc)
    as (o1 & Ho1 & p1 & t1 & Hp1 & ->).
  destruct (generate_pdf_quadrant _ _ _ _ _ _ _ _ _ _ _ _ Hrun2 Hk' Hocc)
    as (o2 & Ho2 & p2 & t2 & Hp2 & ->).
  cbn [fst snd] in *. rewrite Hp1 in Hp2. injection Hp2 as <-.
  exists p1. rewrite Ho1, Ho2. simpl. by destruct p1.
Qed.

Lemma quadrant_geometry_independent_witness :
  exists (w1' w2' : world float) p,
    (ops (canvas w1') !! 0%nat) ≫= LayoutEngine.placed = Some p /\
    (ops (canvas w2') !! 1%nat) ≫= LayoutEngine.placed = Some p.
Proof.
  pose (q := {| image := Some image_7x12; rotation := -90 |}).
  destruct (LayoutEngine.generate_pdf engine_quarter_inch "a.pdf"
              None None (Some q) None fresh_world) as [r1 w1'] eqn:Hrun1.
  destruct (LayoutEngine.generate_pdf engine_quarter_inch "b.pdf"
              (upright image_400x300) None (Some q) (upright image_400x300)
              fresh_world) as [r2 w2'] eqn:Hrun2.
  assert (Hr1 : r1 = Ok tt) by (by vm_compute in Hrun1; injection Hrun1 as <- _).
  assert (Hr2 : r2 = Ok tt) by (by vm_compute in Hrun2; injection Hrun2 as <- _).
  subst r1 r2.
  destruct (quadrant_geometry_independent float _ _ engine_quarter_inch
              "a.pdf" "b.pdf" None None (Some q) None
              (upright image_400x300) None (Some q) (upright image_400x300)
              fresh_world w1' fresh_world w2' 2%nat q 0 0
              eq_refl eq_refl (ex_intro _ image_7x12 eq_refl) Hrun1 Hrun2)
    as (p & _ & Hp1 & Hp2).
  assert (Hs1 : LayoutEngine.slot
                  (LayoutEngine.quadrants None None (Some q) None) 2 = 0%nat)
    by (vm_compute; reflexivity).
  assert (Hs2 : LayoutEngine.slot
                  (LayoutEngine.quadrants (upright image_400x300) None (Some q)
                     (upright image_400x300)) 2 = 1%nat)
    by (vm_compute; reflexivity).
  rewrite Hs1 in Hp1. rewrite Hs2 in Hp2.
  exists w1', w2', p. split; assumption.
Defined.

(** C10: [fit_to_box] hands back the image it was given, or raises
    [ZeroDivisionError]; it only computes the two draw dimensions. What
    [_draw_quadrant] saves and embeds is the rotated raster at its own
    pixel size, and the draw dimensions go to [drawImage] as its width and
    height. *)
Theorem fit_to_box_keeps_image :
  forall (F : Type) (N : PyNum F) (P : Pillow),
    (forall (image : Image) (max_width max_height : F),
       match ImageProcessor.fit_to_box image max_width max_height with
       | Ok (i, _, _) => i = image
       | Raise e => e = ZeroDivisionError
       end) /\
    (forall (self : LayoutEngine.LayoutEngine F) config quad_x quad_y
            (w w' : world F) temp_file,
       LayoutEngine._draw_quadrant self config quad_x quad_y w = (Ok temp_file, w') ->
       exists source draw_width draw_height x y,
         image config = Some source /\
         let rotated := ImageProcessor.rotate_image source (rotation config) in
         ImageProcessor.fit_to_box rotated (LayoutEngine.available_width self)
                                   (LayoutEngine.available_height self)
           = Ok (rotated, draw_width, draw_height) /\
         fs w' !! temp_file = Some (Jpeg rotated) /\
         ops (canvas w') =
           (ops (canvas w) ++
            [DrawImage temp_file rotated x y draw_width draw_height true])%list).
Proof.
  intros F N P. split.
  - intros image mw mh.
    destruct (ImageProcessor.fit_to_box image mw mh) as [[[i nw] nh]|e] eqn:Hfit.
    + by apply fit_to_box_Ok in Hfit as [-> _].
    + by apply fit_to_box_Raise in Hfit.
  - intros self config quad_x quad_y w w' t Hrun.
    apply draw_quadrant_Ok in Hrun as (p & Hp & -> & ->).
    apply place_Ok in Hp as (source & dw & dh & Hsrc & Hfit & ->).
    exists source, dw, dh, (LayoutEngine.x_offset self quad_x dw),
           (LayoutEngine.y_offset self quad_y dh).
    split; [done|]. split; [exact Hfit|]. simpl.
    split; [by rewrite lookup_insert_eq | done].
Qed.

Lemma fit_to_box_keeps_image_witness :
  exists (w' : world float) draw_width draw_height x y,
    fs w' !! Tmp 0 = Some (Jpeg image_400x300) /\
    ops (canvas w') =
      [DrawImage (Tmp 0) image_400x300 x y draw_width draw_height true].
Proof.
  destruct (LayoutEngine._draw_quadrant engine_quarter_inch
              {| image := Some image_400x300; rotation := 0 |} 0 1 fresh_world)
    as [r w'] eqn:Hrun.
  assert (Hr : r = Ok (Tmp 0)) by (by vm_compute in Hrun; injection Hrun as <- _).
  subst r.
  destruct (proj2 (fit_to_box_keeps_image float _ _) engine_quarter_inch
              {| image := Some image_400x300; rotation := 0 |} 0 1
              fresh_world w' (Tmp 0) Hrun)
    as (source & dw & dh & x & y & Hsrc & _ & Hfile & Hops).
  injection Hsrc as <-.
  by exists w', dw, dh, x, y.
Defined.

(** C4: the temporary files are removed only after [c.save()] has returned.
    With an RGB image in Q1 and an RGBA image in Q2, saving Q2's raster as
    JPEG raises: the render raises, and both temporary files are still on
    the disk. With Q1 alone and an output path that cannot be written,
    [c.save()] raises and Q1's temporary file is still on the disk. In a
    render that returns, it is gone. *)
Theorem generate_pdf_leaves_temp_files :
  (let '(r, w') := LayoutEngine.generate_pdf engine_quarter_inch "out.pdf"
                     (upright image_400x300) (upright image_rgba) None None
                     fresh_world in
   r = Raise OSError /\
   fs w' !! Tmp 0 = Some (Jpeg image_400x300) /\
   fs w' !! Tmp 1 = Some EmptyFile) /\
  (let '(r, w') := LayoutEngine.generate_pdf engine_quarter_inch "out.pdf"
                     (upright image_400x300) None None None
                     read_only_world in
   r = Raise OSError /\
   fs w' !! Tmp 0 = Some (Jpeg image_400x300)) /\
  (let '(r, w') := LayoutEngine.generate_pdf engine_quarter_inch "out.pdf"
                     (upright image_400x300) None None None
                     fresh_world in
   r = Ok tt /\
   fs w' !! Tmp 0 = None).
Proof. vm_compute. repeat split; reflexivity. Qed.

(** ** Page selection *)

Section PageSelection.
Import InputHandler.
Context {A : Type}.

Lemma getitem_from_start (l : list A) (i : Z) :
  0 <= i < Z.of_nat (length l) ->
  exists p, l !! Z.to_nat i = Some p /\ getitem l i = Ok p.
Proof.
  intros Hi. unfold getitem.
  destruct (i <? 0) eqn:E1; [lia|].
  destruct (i <? 0); [lia|].
  destruct (Z.of_nat (length l) <=? i) eqn:E2; [lia|]. simpl.
  destruct (l !! Z.to_nat i) as [p|] eqn:E3; [by exists p|].
  apply lookup_ge_None in E3. lia.
Qed.

Lemma getitem_from_end (l : list A) (i : Z) :
  - Z.of_nat (length l) <= i < 0 ->
  exists p, l !! Z.to_nat (Z.of_nat (length l) + i) = Some p /\ getitem l i = Ok p.
Proof.
  intros Hi. unfold getitem.
  destruct (i <? 0) eqn:E1; [|lia].
  destruct (Z.of_nat (length l) + i <? 0) eqn:E0; [lia|].
  destruct (Z.of_nat (length l) <=? Z.of_nat (length l) + i) eqn:E2; [lia|].
  simpl.
  destruct (l !! Z.to_nat _) as [p|] eqn:E3; [by exists p|].
  apply lookup_ge_None in E3. lia.
Qed.

Lemma int_not_keyword (s : string) (n : Z) :
  int s = Ok n ->
  String.eqb s "last" = false /\ String.eqb s "second-last" = false.
Proof.
  intros Hint. split.
  - destruct (String.eqb_spec s "last") as [->|]; [|done].
    vm_compute in Hint. discriminate.
  - destruct (String.eqb_spec s "second-last") as [->|]; [|done].
    vm_compute in Hint. discriminate.
Qed.

(** The body of [load_pdf_page] once the file exists and has pages. *)
Lemma load_pdf_page_nonempty (images : list A) (page_spec : string) :
  images <> [] ->
  load_pdf_page true images page_spec =
    let len := Z.of_nat (length images) in
    if String.eqb page_spec "last" then getitem images (-1)
    else if String.eqb page_spec "second-last" then
      if len <? 2 then Raise (ValueError NoSecondLastPage)
      else getitem images (-2)
    else
      except_ValueError
        (page_num ← int page_spec;
         let page_index :=
           if page_num =? 0 then 0
           else if 0 <? page_num then page_num - 1
           else len + page_num in
         if (page_index <? 0) || (len <=? page_index) then
           Raise (ValueError (PageOutOfRange page_num (length images)))
         else getitem images page_index)
        (Raise (ValueError (InvalidPageSpec page_spec (length images)))).
Proof. intros Hne. unfold load_pdf_page. by destruct images. Qed.

(** A numeric selector: the page index the code computes, and the range
    error it raises outside the document. *)
Lemma load_pdf_page_number (images : list A) (s : string) (page_num : Z) :
  images <> [] ->
  int s = Ok page_num ->
  let len := Z.of_nat (length images) in
  let page_index :=
    if page_num =? 0 then 0
    else if 0 <? page_num then page_num - 1 else len + page_num in
  (0 <= page_index < len ->
   exists p, images !! Z.to_nat page_index = Some p /\
             load_pdf_page true images s = Ok p) /\
  (page_index < 0 \/ len <= page_index ->
   load_pdf_page true images s
     = Raise (ValueError (InvalidPageSpec s (length images)))).
Proof.
  intros Hne Hint len page_index.
  destruct (int_not_keyword _ _ Hint) as [E1 E2].
  rewrite (load_pdf_page_nonempty _ _ Hne). cbv zeta. rewrite E1, E2, Hint.
  cbn [mbind result_bind]. fold len. fold page_index. split.
  - intros Hin.
    destruct (page_index <? 0) eqn:E3; [lia|].
    destruct (len <=? page_index) eqn:E4; [lia|]. simpl.
    destruct (getitem_from_start images page_index Hin) as (p & Hp & ->).
    by exists p.
  - intros Hout.
    destruct (page_index <? 0) eqn:E3; [done|].
    destruct (len <=? page_index) eqn:E4; [done|lia].
Qed.

End PageSelection.

(** C5: on a document of at least one page, ["last"] gives the final page;
    ["second-last"] gives the page before it and fails on a one-page
    document; a numeric selector 0 or 1 gives the first page, N >= 1 the
    N-th page counted from 1, N < 0 the page of index pageCount + N counted
    from 0; every numeric selector outside the document fails with the
    [ValueError] that names the selector and the valid range. *)
Theorem load_pdf_page_selector :
  forall (A : Type) (images : list A),
    images <> [] ->
    let n := length images in
    (exists p, images !! (n - 1)%nat = Some p /\
               InputHandler.load_pdf_page true images "last" = Ok p) /\
    ((n < 2)%nat ->
     InputHandler.load_pdf_page true images "second-last"
       = Raise (ValueError NoSecondLastPage)) /\
    ((2 <= n)%nat ->
     exists p, images !! (n - 2)%nat = Some p /\
               InputHandler.load_pdf_page true images "second-last" = Ok p) /\
    (forall (s : string) (N : Z),
       int s = Ok N ->
       (N = 0 \/ N = 1 ->
        exists p, images !! 0%nat = Some p /\
                  InputHandler.load_pdf_page true images s = Ok p) /\
       (1 <= N <= Z.of_nat n ->
        exists p, images !! Z.to_nat (N - 1) = Some p /\
                  InputHandler.load_pdf_page true images s = Ok p) /\
       (- Z.of_nat n <= N <= -1 ->
        exists p, images !! Z.to_nat (Z.of_nat n + N) = Some p /\
                  InputHandler.load_pdf_page true images s = Ok p) /\
       (Z.of_nat n < N \/ N < - Z.of_nat n ->
        InputHandler.load_pdf_page true images s
          = Raise (ValueError (InvalidPageSpec s n)))).
Proof.
  intros A images Hne n.
  assert (Hlen : (0 < n)%nat).
  { subst n. destruct images; [done|simpl; lia]. }
  split; [|split; [|split]].
  - destruct (getitem_from_end images (-1)) as (p & Hp & Hget); [lia|].
    exists p. split.
    + rewrite <- Hp. f_equal. lia.
    + by rewrite (load_pdf_page_nonempty _ _ Hne).
  - intros Hn. rewrite (load_pdf_page_nonempty _ _ Hne). cbv zeta.
    change (String.eqb "second-last" "last") with false.
    change (String.eqb "second-last" "second-last") with true. cbv iota.
    destruct (_ <? 2) eqn:E; [done|]. lia.
  - intros Hn.
    destruct (getitem_from_end images (-2)) as (p & Hp & Hget); [lia|].
    exists p. split.
    + rewrite <- Hp. f_equal. lia.
    + rewrite (load_pdf_page_nonempty _ _ Hne). cbv zeta.
      change (String.eqb "second-last" "last") with false.
      change (String.eqb "second-last" "second-last") with true. cbv iota.
      destruct (_ <? 2) eqn:E; [lia|done].
  - intros s N Hint.
    destruct (load_pdf_page_number images s N Hne Hint) as [Hin Hout].
    fold n in Hin, Hout. repeat split.
    + intros [-> | ->]; (destruct Hin as (p & Hp & Hload); [simpl; lia|]);
        exists p; by split.
    + intros HN. destruct (N =? 0) eqn:E0; [lia|].
      destruct (0 <? N) eqn:E1; [|lia]. apply Hin. lia.
    + intros HN. destruct (N =? 0) eqn:E0; [lia|].
      destruct (0 <? N) eqn:E1; [lia|]. apply Hin. lia.
    + intros HN. apply Hout.
      destruct (N =? 0) eqn:E0; [lia|]. destruct (0 <? N) eqn:E1; lia.
Qed.

Lemma load_pdf_page_selector_witness :
  InputHandler.load_pdf_page true [10; 20; 30] "last" = Ok 30 /\
  InputHandler.load_pdf_page true [10; 20; 30] "second-last" = Ok 20 /\
  InputHandler.load_pdf_page true [10] "second-last"
    = Raise (ValueError NoSecondLastPage) /\
  InputHandler.load_pdf_page true [10; 20; 30] "1" = Ok 10 /\
  InputHandler.load_pdf_page true [10; 20; 30] "2" = Ok 20 /\
  InputHandler.load_pdf_page true [10; 20; 30] "-3" = Ok 10 /\
  InputHandler.load_pdf_page true [10; 20; 30] "4"
    = Raise (ValueError (InvalidPageSpec "4" 3)).
Proof.
  assert (H3 : [10; 20; 30] <> @nil Z) by discriminate.
  assert (H1 : [10] <> @nil Z) by discriminate.
  destruct (load_pdf_page_selector Z [10; 20; 30] H3) as (Hl & _ & Hs & Hn).
  destruct (load_pdf_page_selector Z [10] H1) as (_ & Hs1 & _).
  cbv zeta in *.
  destruct Hl as (p & Hp & ->). injection Hp as <-.
  destruct Hs as (p & Hp & ->); [simpl; lia|]. injection Hp as <-.
  rewrite Hs1 by (simpl; lia).
  destruct (Hn "1" 1 eq_refl) as ((p1 & Hp1 & ->) & _); [by right|].
  injection Hp1 as <-.
  destruct (Hn "2" 2 eq_refl) as (_ & (p2 & Hp2 & ->) & _); [simpl; lia|].
  injection Hp2 as <-.
  destruct (Hn "-3" (-3) eq_refl) as (_ & _ & (p3 & Hp3 & ->) & _); [simpl; lia|].
  injection Hp3 as <-.
  destruct (Hn "4" 4 eq_refl) as (_ & _ & _ & H4).
  rewrite H4 by (left; reflexivity).
  repeat split.
Defined.

(** ** Preset resolution *)

Section Presets.
Import ConfigManager.

Lemma overridden_false overrides q :
  overridden overrides q = false <-> override overrides q = None.
Proof.
  unfold overridden, override. destruct overrides as [o|]; simpl; [|done].
  split.
  - intros Hov. destruct (o !! q) as [e|] eqn:E; [|done].
    rewrite andb_false_iff in Hov. destruct Hov as [Hov|Hov].
    + apply negb_false_iff, bool_decide_eq_true in Hov. subst o.
      by rewrite lookup_empty in E.
    + apply bool_decide_eq_false in Hov. by destruct Hov.
  - intros ->. rewrite andb_false_iff. right.
    apply bool_decide_eq_false. by intros [? ?].
Qed.

(** The loop: what it adds to [res], and that it adds every entry it is
    asked to. *)
Lemma resolve_quadrants_Ok input_file overrides items res r :
  resolve_quadrants input_file overrides items res = Ok r ->
  (forall q e, r !! q = Some e ->
     res !! q = Some e \/
     exists k config source,
       (k, config) ∈ items /\ int_key k = Ok q /\
       override overrides q = None /\
       config !! "source" = Some source /\
       e = resolved_entry input_file config source) /\
  (forall q, is_Some (res !! q) -> is_Some (r !! q)) /\
  (forall k config q,
     (k, config) ∈ items -> int_key k = Ok q ->
     override overrides q = None -> is_Some (r !! q)).
Proof.
  revert res. induction items as [|[k config] rest IH]; intros res Hrun.
  - injection Hrun as <-. split; [by left|]. split; [done|].
    intros k config q Hin. by apply elem_of_nil in Hin.
  - cbn [resolve_quadrants] in Hrun.
    destruct (int_key k) as [q0|] eqn:Hk; [|discriminate].
    cbn [mbind result_bind] in Hrun.
    destruct (overridden overrides q0) eqn:Hov.
    + apply IH in Hrun as (Hfrom & Hkeep & Hall).
      split; [|split].
      * intros q e Hq. destruct (Hfrom q e Hq) as [?|(k' & c' & s' & Hin & ?)];
          [by left|].
        right. exists k', c', s'. split; [by right|done].
      * done.
      * intros k' c' q Hin Hk' Hno. apply elem_of_cons in Hin as [[= -> ->]|Hin].
        -- rewrite Hk in Hk'. injection Hk' as ->.
           apply overridden_false in Hno. congruence.
        -- by eapply Hall.
    + destruct (config !! "source") as [source|] eqn:Hsrc; [|discriminate].
      cbn [mbind result_bind] in Hrun.
      fold (resolved_entry input_file config source) in Hrun.
      apply IH in Hrun as (Hfrom & Hkeep & Hall).
      apply overridden_false in Hov.
      split; [|split].
      * intros q e Hq. destruct (Hfrom q e Hq) as [Hres|(k' & c' & s' & Hin & ?)].
        -- destruct (decide (q0 = q)) as [->|Hne].
           ++ rewrite lookup_insert_eq in Hres. injection Hres as <-.
              right. exists k, config, source. split; [by left|done].
           ++ rewrite lookup_insert_ne in Hres by done. by left.
        -- right. exists k', c', s'. split; [by right|done].
      * intros q Hq. apply Hkeep.
        destruct (decide (q0 = q)) as [->|Hne].
        -- by rewrite lookup_insert_eq.
        -- by rewrite lookup_insert_ne.
      * intros k' c' q Hin Hk' Hno. apply elem_of_cons in Hin as [[= -> ->]|Hin].
        -- rewrite Hk in Hk'. injection Hk' as ->.
           apply Hkeep. by rewrite lookup_insert_eq.
        -- by eapply Hall.
Qed.

(** The loop returns when every key is a number and every entry it has to
    copy has a source. *)
Lemma resolve_quadrants_returns input_file overrides items res :
  (forall k config, (k, config) ∈ items ->
     exists q, int_key k = Ok q /\
       (override overrides q = None -> is_Some (config !! "source"))) ->
  exists r, resolve_quadrants input_file overrides items res = Ok r.
Proof.
  revert res. induction items as [|[k config] rest IH]; intros res Hitems.
  - by exists res.
  - cbn [resolve_quadrants].
    destruct (Hitems k config) as (q & -> & Hsrc); [by left|].
    cbn [mbind result_bind].
    assert (Hrest : forall k' c', (k', c') ∈ rest ->
              exists q', int_key k' = Ok q' /\
                (override overrides q' = None -> is_Some (c' !! "source"))).
    { intros k' c' Hin. apply Hitems. by right. }
    destruct (overridden overrides q) eqn:Hov; [by apply IH|].
    apply overridden_false in Hov. destruct (Hsrc Hov) as [source ->].
    cbn [mbind result_bind]. by apply IH.
Qed.

End Presets.

(** C9 (as stated): the user preset "mine" has the quadrant entry
    [{source: "{input}"}] for quadrant 1. Resolved without overrides, the
    entry returned for quadrant 1 is not that entry with the placeholder
    substituted: it has gained [page: "last"] and [rotation: 0]. *)
Lemma resolve_preset_fills_defaults :
  ConfigManager.get_preset user_config "mine"
    = Some {| description := None; quadrants := Some [ (KInt 1, source_only) ] |} /\
  exists r e,
    ConfigManager.resolve_preset user_config "mine" "in.pdf" None = Ok r /\
    r !! 1 = Some e /\
    e <> <[ "source" := VStr "in.pdf" ]> source_only /\
    source_only !! "page" = None /\
    e !! "page" = Some (VStr "last") /\
    e !! "rotation" = Some (VInt 0).
Proof.
  split; [reflexivity|].
  eexists _, _. split; [reflexivity|]. split; [reflexivity|].
  split; [|repeat split; reflexivity].
  intros Heq. apply (f_equal (fun m : gmap string value => m !! "page")) in Heq.
  vm_compute in Heq. discriminate.
Qed.

(** C9 (amended): resolution fails with the not-found error when no preset
    has the name. When it returns, a quadrant present in the overrides
    carries the override's entry as it is; any other quadrant of the result
    comes from a preset entry with that number and is the mapping of
    [source] (with the placeholder replaced by the input file), [page]
    (["last"] when the preset gives none) and [rotation] (0 when the preset
    gives none), and every such preset entry is in the result; a preset
    entry that has exactly these three fields is returned unchanged apart
    from the placeholder. It returns whenever the preset has a key, its
    quadrant keys are numbers and its entries that are not overridden have
    a source. *)
Theorem resolve_preset_overrides :
  forall (self : ConfigManager.ConfigManager) (preset_name input_file : string)
         (overrides : option (gmap Z (gmap string value))),
    let items := default [] (ConfigManager.get_preset self preset_name ≫= quadrants) in
    (ConfigManager.get_preset self preset_name = None ->
     ConfigManager.resolve_preset self preset_name input_file overrides
       = Raise (ValueError (PresetNotFound preset_name))) /\
    (forall r,
       ConfigManager.resolve_preset self preset_name input_file overrides = Ok r ->
       (forall q e, ConfigManager.override overrides q = Some e -> r !! q = Some e) /\
       (forall q e, ConfigManager.override overrides q = None -> r !! q = Some e ->
          exists k config source,
            (k, config) ∈ items /\ ConfigManager.int_key k = Ok q /\
            config !! "source" = Some source /\
            e = ConfigManager.resolved_entry input_file config source) /\
       (forall k config q,
          (k, config) ∈ items -> ConfigManager.int_key k = Ok q ->
          ConfigManager.override overrides q = None -> is_Some (r !! q))) /\
    (forall source page rotation,
       ConfigManager.resolved_entry input_file
         (ConfigManager.quadrant source page rotation) (VStr source)
       = ConfigManager.quadrant
           (if bool_decide (source = "{input}") then input_file else source)
           page rotation) /\
    (ConfigManager.not_preset (ConfigManager.get_preset self preset_name) = false ->
     (forall k config, (k, config) ∈ items ->
        exists q, ConfigManager.int_key k = Ok q /\
          (ConfigManager.override overrides q = None ->
           is_Some (config !! "source"))) ->
     exists r,
       ConfigManager.resolve_preset self preset_name input_file overrides = Ok r).
Proof.
  intros self preset_name input_file overrides items.
  split; [|split; [|split]].
  - unfold ConfigManager.resolve_preset. by intros ->.
  - intros r Hrun. unfold ConfigManager.resolve_preset in Hrun.
    destruct (ConfigManager.not_preset _); [discriminate|].
    fold items in Hrun.
    destruct (ConfigManager.resolve_quadrants input_file overrides items ∅)
      as [res|] eqn:Hloop; [|discriminate].
    cbn [mbind result_bind] in Hrun.
    apply resolve_quadrants_Ok in Hloop as (Hfrom & _ & Hall).
    assert (Hr : forall q,
              r !! q = match ConfigManager.override overrides q with
                       | Some e => Some e
                       | None => res !! q
                       end).
    { intros q. unfold ConfigManager.override.
      destruct overrides as [o|]; simpl; [|by injection Hrun as <-].
      destruct (bool_decide (o = ∅)) eqn:Ho.
      - apply bool_decide_eq_true in Ho. subst o. injection Hrun as <-.
        by rewrite lookup_empty.
      - injection Hrun as <-. rewrite lookup_union.
        destruct (o !! q), (res !! q); done. }
    split; [|split].
    + intros q e Hq. by rewrite Hr, Hq.
    + intros q e Hq Hrq. rewrite Hr, Hq in Hrq.
      destruct (Hfrom q e Hrq) as [Hempty|(k & c & src & Hin & Hk & _ & Hsrc & ->)].
      * by rewrite lookup_empty in Hempty.
      * by exists k, c, src.
    + intros k c q Hin Hk Hq. rewrite Hr, Hq. by eapply Hall.
  - intros source page rotation.
    unfold ConfigManager.resolved_entry, ConfigManager.quadrant.
    rewrite !lookup_insert_ne, !lookup_insert_eq by done.
    rewrite lookup_insert_ne, lookup_insert_ne, lookup_singleton_eq by done.
    simpl. f_equal.
    destruct (decide (source = "{input}")) as [->|Hne].
    + by rewrite !bool_decide_eq_true_2.
    + rewrite !bool_decide_eq_false_2; [done..|]. by intros [= ?].
  - intros Hpreset Hitems. unfold ConfigManager.resolve_preset.
    rewrite Hpreset. fold items.
    destruct (resolve_quadrants_returns input_file overrides items ∅ Hitems)
      as [res ->].
    cbn [mbind result_bind].
    destruct overrides as [o|]; [|by eexists].
    destruct (bool_decide (o = ∅)); by eexists.
Qed.

Lemma resolve_preset_overrides_witness :
  exists r,
    ConfigManager.resolve_preset builtin_only "standard" "in.pdf" override_q3 = Ok r /\
    r !! 3 = Some (ConfigManager.quadrant "notes.png" "1" 90) /\
    r !! 1 = Some (ConfigManager.quadrant "in.pdf" "last" 0) /\
    ConfigManager.resolve_preset builtin_only "missing" "in.pdf" override_q3
      = Raise (ValueError (PresetNotFound "missing")).
Proof.
  destruct (resolve_preset_overrides builtin_only "standard" "in.pdf" override_q3)
    as (_ & Hok & Hsame & Hret).
  destruct (resolve_preset_overrides builtin_only "missing" "in.pdf" override_q3)
    as (Hmissing & _).
  cbv zeta in *.
  destruct Hret as [r Hr]; [reflexivity| |].
  { intros k config Hin.
    assert (Hitems : default [] (ConfigManager.get_preset builtin_only "standard"
                                   ≫= quadrants)
                     = [ (KInt 1, ConfigManager.quadrant "{input}" "last" 0);
                         (KInt 2, ConfigManager.quadrant "{input}" "last" 0);
                         (KInt 3, ConfigManager.quadrant "{input}" "second-last" (-90)) ])
      by reflexivity.
    rewrite Hitems in Hin.
    repeat (apply elem_of_cons in Hin as [[= -> ->]|Hin]);
      [..|by apply elem_of_nil in Hin];
      eexists; (split; [reflexivity|]); intros _; eexists; reflexivity. }
  exists r. split; [exact Hr|].
  destruct (Hok r Hr) as (Hov & Hfrom & Hall).
  split; [by apply Hov|]. split; [|by apply Hmissing].
  destruct (Hall (KInt 1) (ConfigManager.quadrant "{input}" "last" 0) 1)
    as [e He]; [by left|reflexivity|reflexivity|].
  rewrite He. f_equal.
  destruct (Hfrom 1 e eq_refl He) as (k & config & source & Hin & Hk & Hsrc & ->).
  assert (Hitems : default [] (ConfigManager.get_preset builtin_only "standard"
                                 ≫= quadrants)
                   = [ (KInt 1, ConfigManager.quadrant "{input}" "last" 0);
                       (KInt 2, ConfigManager.quadrant "{input}" "last" 0);
                       (KInt 3, ConfigManager.quadrant "{input}" "second-last" (-90)) ])
    by reflexivity.
  rewrite Hitems in Hin.
  repeat (apply elem_of_cons in Hin as [[= -> ->]|Hin]);
    [..|by apply elem_of_nil in Hin]; try discriminate.
  assert (source = VStr "{input}") as -> by (vm_compute in Hsrc; congruence).
  exact (Hsame "{input}" "last" 0).
Defined.

(** ** Rotation *)

Section Rotation.
Local Open Scope R_scope.

Lemma cos_sin_back (x : R) (n : nat) :
  cos (x - 2 * INR n * PI) = cos x /\ sin (x - 2 * INR n * PI) = sin x.
Proof.
  split.
  - rewrite <- (cos_period (x - 2 * INR n * PI) n). f_equal. lra.
  - rewrite <- (sin_period (x - 2 * INR n * PI) n). f_equal. lra.
Qed.

(** Whole turns do not change the cosine and the sine. *)
Lemma cos_sin_turns (x : R) (k : Z) :
  cos (x + 2 * IZR k * PI) = cos x /\ sin (x + 2 * IZR k * PI) = sin x.
Proof.
  destruct k as [|p|p].
  - replace (x + 2 * 0 * PI) with x by lra. done.
  - rewrite <- (positive_nat_Z p), <- INR_IZR_INZ.
    split; [apply cos_period | apply sin_period].
  - change (Z.neg p) with (- Z.pos p)%Z.
    rewrite opp_IZR, <- (positive_nat_Z p), <- INR_IZR_INZ.
    replace (x + 2 * - INR (Pos.to_nat p) * PI)
      with (x - 2 * INR (Pos.to_nat p) * PI) by lra.
    apply cos_sin_back.
Qed.

Lemma radians_mod (a : Z) :
  radians a = radians (a mod 360) + 2 * IZR (a / 360) * PI.
Proof.
  unfold radians. rewrite (Z.div_mod a 360) at 1 by done.
  rewrite plus_IZR, mult_IZR. field.
Qed.

Lemma cos_sin_mod (a : Z) :
  cos (radians a) = cos (radians (a mod 360)) /\
  sin (radians a) = sin (radians (a mod 360)).
Proof. rewrite radians_mod. apply cos_sin_turns. Qed.

Lemma abs_cos_sin_le_1 (x : R) : Rabs (cos x) <= 1 /\ Rabs (sin x) <= 1.
Proof.
  split; apply Rabs_le; [apply COS_bound | apply SIN_bound].
Qed.

Lemma Rabs_minus_1 : Rabs (-1) = 1.
Proof. unfold Rabs. destruct (Rcase_abs (-1)); lra. Qed.

(** [quarter_turns] returns an image that holds the turned one. *)
Lemma quarter_turns_hold (i : Image) (a : Z) :
  (0 <= width i)%Z -> (0 <= height i)%Z ->
  holds_rotation i a (rotate i a true).
Proof.
  intros Hw Hh. apply IZR_le in Hw, Hh.
  unfold holds_rotation, bounding_width, bounding_height.
  destruct (cos_sin_mod a) as [-> ->].
  destruct (abs_cos_sin_le_1 (radians (a mod 360))) as [Hc Hs].
  pose proof (Rabs_pos (cos (radians (a mod 360)))) as Hc0.
  pose proof (Rabs_pos (sin (radians (a mod 360)))) as Hs0.
  cbn [rotate quarter_turns]. cbv zeta.
  destruct (Z.eqb_spec (a mod 360) 0) as [E0|_].
  { rewrite E0. unfold radians. replace (0 * PI / 180) with 0 by lra.
    rewrite cos_0, sin_0, Rabs_R0, Rabs_R1. lra. }
  destruct (Z.eqb_spec (a mod 360) 180) as [E180|_].
  { rewrite E180. unfold radians. replace (180 * PI / 180) with PI by lra.
    rewrite cos_PI, sin_PI, Rabs_R0, Rabs_minus_1.
    unfold width, height. simpl. lra. }
  destruct (Z.eqb_spec (a mod 360) 90) as [E90|_].
  { rewrite E90. unfold radians. replace (90 * PI / 180) with (PI / 2) by lra.
    rewrite cos_PI2, sin_PI2, Rabs_R0, Rabs_R1.
    unfold width, height. simpl. lra. }
  destruct (Z.eqb_spec (a mod 360) 270) as [E270|_].
  { rewrite E270. unfold radians.
    replace (270 * PI / 180) with (3 * (PI / 2)) by lra.
    rewrite cos_3PI2, sin_3PI2, Rabs_R0, Rabs_minus_1.
    unfold width, height. simpl. lra. }
  cbn [orb andb].
  change (width (turned i (a mod 360)
                   ((width i + height i)%Z, (width i + height i)%Z)))
    with (width i + height i)%Z.
  change (height (turned i (a mod 360)
                    ((width i + height i)%Z, (width i + height i)%Z)))
    with (width i + height i)%Z.
  rewrite plus_IZR. split; nra.
Qed.

End Rotation.

(** C6: [rotate_image] with angle 0 returns the image it was given. For
    any other angle it is Pillow's [rotate] with [expand=True]; under
    Pillow's contract for that call (a quarter turn swaps width and height,
    a half turn keeps them, the result holds the turned image), a W x H
    image rotated by 90 has size H x W, rotated by 180 has size W x H, and
    for every angle the result holds the whole turned image. *)
Theorem rotate_image_expands :
  forall (P : Pillow),
    (forall i, size (rotate i 90 true) = (height i, width i)) ->
    (forall i, size (rotate i 180 true) = size i) ->
    (forall i a, 0 <= width i -> 0 <= height i ->
                 holds_rotation i a (rotate i a true)) ->
    (forall i, ImageProcessor.rotate_image i 0 = i) /\
    (forall i, size (ImageProcessor.rotate_image i 90) = (height i, width i)) /\
    (forall i, size (ImageProcessor.rotate_image i 180) = size i) /\
    (forall i a, 0 <= width i -> 0 <= height i ->
                 holds_rotation i a (ImageProcessor.rotate_image i a)).
Proof.
  intros P Hquarter Hhalf Hholds. repeat split.
  - apply Hquarter.
  - apply Hhalf.
  - unfold ImageProcessor.rotate_image.
    destruct (Z.eqb_spec a 0) as [->|Ha]; [|by apply Hholds].
    unfold bounding_width, radians.
    replace (0 * PI / 180)%R with 0%R by lra.
    rewrite cos_0, sin_0, Rabs_R0, Rabs_R1. lra.
  - unfold ImageProcessor.rotate_image.
    destruct (Z.eqb_spec a 0) as [->|Ha]; [|by apply Hholds].
    unfold bounding_height, radians.
    replace (0 * PI / 180)%R with 0%R by lra.
    rewrite cos_0, sin_0, Rabs_R0, Rabs_R1. lra.
Qed.

Lemma rotate_image_expands_witness :
  ImageProcessor.rotate_image image_400x300 0 = image_400x300 /\
  size (ImageProcessor.rotate_image image_400x300 90) = (300, 400) /\
  size (ImageProcessor.rotate_image image_400x300 180) = (400, 300) /\
  holds_rotation image_400x300 45 (ImageProcessor.rotate_image image_400x300 45).
Proof.
  destruct (rotate_image_expands quarter_turns
              (fun i => eq_refl) (fun i => eq_refl) quarter_turns_hold)
    as (H0 & H90 & H180 & Hall).
  split; [apply H0|]. split; [apply H90|]. split; [apply H180|].
  apply Hall; vm_compute; discriminate.
Defined.

(** * Further properties of the code *)

(** ** Rendering: when it returns, how it fails, what it leaves *)

Section Render.
Import ImageProcessor LayoutEngine.
Context {F : Type} `{PyNum F} `{Pillow}.




(** The loop does nothing when no quadrant is occupied. *)
Lemma draw_quadrants_none self qs tfs (w : world F) :
  drawn_quadrants qs = [] ->
  draw_quadrants self qs tfs w = (Ok tfs, w).
Proof.
  revert tfs w. induction qs as [|[[config quad_x] quad_y] rest IH];
    intros tfs w Hnone; [done|].
  cbn [draw_quadrants drawn_quadrants] in *.
  destruct config as [c|]; [|by apply IH].
  destruct (occupied (Some c)); [discriminate|]. by apply IH.
Qed.

Lemma fit_to_box_zero_height (image : Image) (max_width max_height : F) :
  is_zero max_height = true ->
  fit_to_box image max_width max_height = Raise ZeroDivisionError.
Proof.
  intros Hzero. unfold fit_to_box. destruct (size image) as [iw ih].
  destruct (truediv (of_Z iw) (of_Z ih)) as [a|e] eqn:Ea.
  - cbn [mbind result_bind].
    assert (Hb : truediv max_width max_height = Raise ZeroDivisionError)
      by (unfold truediv; by rewrite Hzero).
    by rewrite Hb.
  - apply truediv_Raise in Ea. by subst.
Qed.

Lemma draw_quadrants_zero_height self qs tfs (w : world F) :
  is_zero (available_height self) = true ->
  drawn_quadrants qs <> [] ->
  draw_quadrants self qs tfs w = (Raise ZeroDivisionError, w).
Proof.
  intros Hzero. revert tfs w.
  induction qs as [|[[config quad_x] quad_y] rest IH]; intros tfs w Hsome; [done|].
  cbn [draw_quadrants drawn_quadrants] in *.
  destruct config as [c|]; [|by apply IH].
  destruct (occupied (Some c)) eqn:Hocc; [|by apply IH].
  apply bool_decide_eq_true in Hocc as [source Hsrc].
  unfold _draw_quadrant, mbind, io_bind, lift. rewrite Hsrc.
  cbv beta iota. fold (available_width self) (available_height self).
  rewrite (fit_to_box_zero_height _ _ _ Hzero). reflexivity.
Qed.

(** The files after the loop: the temporary files, named from the counter
    on, hold rasters; every other path is as before. *)
Lemma draw_quadrants_files self qs tfs (w : world F) tfs' w' :
  draw_quadrants self qs tfs w = (Ok tfs', w') ->
  exists ns,
    tfs' = (tfs ++ map Tmp ns)%list /\
    Forall (fun n => (next_tmp w <= n)%nat) ns /\
    (forall f, f ∉ map Tmp ns -> fs w' !! f = fs w !! f).
Proof.
  revert tfs w. induction qs as [|[[config quad_x] quad_y] rest IH];
    intros tfs w Hrun.
  - injection Hrun as <- <-. exists []. by rewrite app_nil_r.
  - cbn [draw_quadrants] in Hrun.
    apply io_bind_Ok in Hrun as (tfs1 & w1 & Hq & Hrun).
    apply IH in Hrun as (ns & -> & Hns & Hfs).
    destruct config as [c|].
    2:{ injection Hq as <- <-. by exists ns. }
    destruct (occupied (Some c)).
    2:{ injection Hq as <- <-. by exists ns. }
    apply io_bind_Ok in Hq as (t & w2 & Hq & Hret).
    injection Hret as <- <-.
    apply draw_quadrant_Ok in Hq as (p & _ & -> & ->). cbn [next_tmp fs] in *.
    exists (next_tmp w :: ns). split; [by rewrite <- app_assoc|]. split.
    + constructor; [lia|]. eapply Forall_impl; [exact Hns|]. simpl. lia.
    + intros f Hf. cbn [map] in Hf. apply not_elem_of_cons in Hf as [Hne Hf].
      rewrite (Hfs f Hf), !lookup_insert_ne; done.
Qed.

(** With no failing removal, the clean-up leaves none of the files it was
    given. *)
Lemma remove_temp_files_clean temp_files (w : world F) w' :
  (forall f, remove_fails (env w) f = false) ->
  remove_temp_files temp_files w = (Ok tt, w') ->
  forall f, fs w' !! f = if bool_decide (f ∈ temp_files) then None else fs w !! f.
Proof.
  revert w. induction temp_files as [|t rest IH]; intros w Hrm Hrun f.
  - injection Hrun as <-. by rewrite bool_decide_eq_false_2 by apply not_elem_of_nil.
  - cbn [remove_temp_files] in Hrun.
    apply io_bind_Ok in Hrun as ([] & w1 & Hstep & Hrun).
    assert (Hw1 : env w1 = env w /\
                  forall g, fs w1 !! g = if bool_decide (g = t) then None
                                         else fs w !! g).
    { unfold try_pass, os_remove in Hstep. rewrite Hrm in Hstep.
      destruct (fs w !! t) eqn:Ht; injection Hstep as <-; (split; [done|]);
        intros g; case_bool_decide as Hg; subst; simpl;
        rewrite ?lookup_delete_eq, ?lookup_delete_ne; done. }
    destruct Hw1 as [Henv Hfs1].
    rewrite (IH w1) by (by rewrite ?Henv). rewrite Hfs1.
    destruct (decide (f = t)) as [->|Hne].
    + rewrite (bool_decide_eq_true_2 (t = t)) by done.
      rewrite (bool_decide_eq_true_2 (t ∈ t :: rest)) by apply list_elem_of_here.
      by destruct (bool_decide (t ∈ rest)).
    + rewrite (bool_decide_eq_false_2 (f = t)) by done.
      destruct (decide (f ∈ rest)) as [Hin|Hout].
      * rewrite (bool_decide_eq_true_2 (f ∈ rest)) by done.
        rewrite (bool_decide_eq_true_2 (f ∈ t :: rest)); [done|]. by right.
      * rewrite (bool_decide_eq_false_2 (f ∈ rest)) by done.
        rewrite (bool_decide_eq_false_2 (f ∈ t :: rest)); [done|].
        intros [?|?]%elem_of_cons; done.
Qed.

End Render.





(** X3: when a render returns, no removal fails and the names the
    temporary files will get are free, the disk afterwards is the disk
    before plus the output file: every temporary file is gone and no other
    file is touched. *)
Theorem render_leaves_only_output :
  forall (F : Type) (N : PyNum F) (P : Pillow) (self : LayoutEngine.LayoutEngine F)
         output_path q1 q2 q3 q4 (w w' : world F),
    LayoutEngine.generate_pdf self output_path q1 q2 q3 q4 w = (Ok tt, w') ->
    (forall f, remove_fails (env w) f = false) ->
    (forall n, (next_tmp w <= n)%nat -> fs w !! Tmp n = None) ->
    fs w' = <[User output_path := Pdf LayoutEngine.letter (ops (canvas w'))]> (fs w).
Proof.
  intros F N P self out q1 q2 q3 q4 w w' Hrun Hrm Hfresh.
  pose proof (generate_pdf_Ok _ _ _ _ _ _ _ _ Hrun) as (_ & _ & _ & Hfile).
  unfold LayoutEngine.generate_pdf in Hrun.
  apply io_bind_Ok in Hrun as ([] & w1 & Hnew & Hrun). injection Hnew as <-.
  apply io_bind_Ok in Hrun as (tfs & w2 & Hloop & Hrun).
  pose proof (draw_quadrants_Ok _ _ _ _ _ _ Hloop)
    as (_ & _ & _ & _ & Hfn2 & _ & Henv2 & _).
  apply draw_quadrants_files in Hloop as (ns & -> & Hns & Hfs2).
  cbn [app next_tmp set_canvas fs env canvas filename] in *.
  apply io_bind_Ok in Hrun as ([] & w3 & Hgrid & Hrun).
  assert (Hw3 : fs w3 = fs w2 /\ env w3 = env w2 /\
                filename (canvas w3) = filename (canvas w2)).
  { destruct (LayoutEngine.show_grid self).
    - rewrite draw_grid_run in Hgrid. by injection Hgrid as <-.
    - by injection Hgrid as <-. }
  destruct Hw3 as (Hfs3 & Henv3 & Hfn3).
  apply io_bind_Ok in Hrun as ([] & w4 & Hsave & Hrun).
  unfold canvas_save in Hsave. destruct (write_fails _ _); [discriminate|].
  injection Hsave as <-.
  assert (Hrm4 : forall f,
            remove_fails (env (set_fs w3 (<[filename (canvas w3) :=
              Pdf (pagesize (canvas w3)) (ops (canvas w3))]> (fs w3)))) f = false).
  { intros f. cbn [env set_fs]. rewrite Henv3, Henv2. apply Hrm. }
  pose proof (remove_temp_files_clean _ _ _ Hrm4 Hrun) as Hclean.
  apply map_eq. intros f.
  destruct (decide (f = User out)) as [->|Hne].
  { by rewrite Hfile, lookup_insert_eq. }
  rewrite lookup_insert_ne by done. rewrite Hclean.
  case_bool_decide as Hf.
  - apply list_elem_of_fmap in Hf as (n & -> & Hn).
    symmetry. apply Hfresh. by eapply (proj1 (Forall_forall _ _) Hns).
  - cbn [fs set_fs]. rewrite Hfn3, Hfn2, lookup_insert_ne by done.
    rewrite Hfs3. by apply Hfs2.
Qed.

Lemma render_leaves_only_output_witness :
  exists w' : world float,
    LayoutEngine.generate_pdf engine_quarter_inch "out.pdf"
      (upright image_400x300) None (upright image_7x12) None fresh_world
      = (Ok tt, w') /\
    fs w' = <[User "out.pdf" := Pdf LayoutEngine.letter (ops (canvas w'))]> ∅.
Proof.
  destruct (LayoutEngine.generate_pdf engine_quarter_inch "out.pdf"
              (upright image_400x300) None (upright image_7x12) None fresh_world)
    as [r w'] eqn:Hrun.
  assert (Hr : r = Ok tt) by (by vm_compute in Hrun; injection Hrun as <- _).
  subst r. exists w'. split; [done|].
  apply (render_leaves_only_output float _ _ engine_quarter_inch "out.pdf"
           (upright image_400x300) None (upright image_7x12) None
           fresh_world w' Hrun).
  - reflexivity.
  - reflexivity.
Defined.

(** X4: with no occupied quadrant (each one absent or without an image) and
    a writable output path, the render returns: it creates no temporary
    file, and the output file is a page that holds the grid alone when the
    grid is enabled and nothing when it is not. *)
Theorem render_blank_page :
  forall (F : Type) (N : PyNum F) (P : Pillow) (self : LayoutEngine.LayoutEngine F)
         output_path q1 q2 q3 q4 (w : world F),
    LayoutEngine.occupied q1 = false -> LayoutEngine.occupied q2 = false ->
    LayoutEngine.occupied q3 = false -> LayoutEngine.occupied q4 = false ->
    write_fails (env w) (User output_path) = false ->
    exists w',
      LayoutEngine.generate_pdf self output_path q1 q2 q3 q4 w = (Ok tt, w') /\
      ops (canvas w') =
        (if LayoutEngine.show_grid self then LayoutEngine.grid_ops self else []) /\
      fs w' = <[User output_path := Pdf LayoutEngine.letter (ops (canvas w'))]> (fs w) /\
      next_tmp w' = next_tmp w.
Proof.
  intros F N P self out q1 q2 q3 q4 w H1 H2 H3 H4 Hwrite.
  assert (Hnone : LayoutEngine.drawn_quadrants (LayoutEngine.quadrants q1 q2 q3 q4) = []).
  { unfold LayoutEngine.quadrants. cbn [LayoutEngine.drawn_quadrants].
    destruct q1 as [c1|]; [rewrite H1|]; (destruct q2 as [c2|]; [rewrite H2|]);
      (destruct q3 as [c3|]; [rewrite H3|]); (destruct q4 as [c4|]; [rewrite H4|]);
      reflexivity. }
  unfold LayoutEngine.generate_pdf, mbind, io_bind, new_Canvas.
  rewrite (draw_quadrants_none _ _ _ _ Hnone).
  destruct (LayoutEngine.show_grid self).
  - rewrite draw_grid_run. unfold canvas_save. cbn [canvas set_canvas env filename].
    rewrite Hwrite. eexists. split; [reflexivity|]. repeat split.
  - cbn [mret io_ret]. unfold canvas_save. cbn [canvas set_canvas env filename].
    rewrite Hwrite. eexists. split; [reflexivity|]. repeat split.
Qed.

Lemma render_blank_page_witness :
  exists w' : world float,
    LayoutEngine.generate_pdf engine_quarter_inch "out.pdf"
      None (Some {| image := None; rotation := 90 |}) None None fresh_world
      = (Ok tt, w') /\
    length (ops (canvas w')) = 4%nat /\
    next_tmp w' = 0%nat.
Proof.
  destruct (render_blank_page float _ _ engine_quarter_inch "out.pdf"
              None (Some {| image := None; rotation := 90 |}) None None
              fresh_world eq_refl eq_refl eq_refl eq_refl eq_refl)
    as (w' & Hrun & Hops & _ & Htmp).
  exists w'. split; [exact Hrun|]. rewrite Hops, Htmp. split; reflexivity.
Defined.

(** X6: when the margin leaves a drawable height of zero (a margin of 2.75
    inches does), every render with an occupied quadrant fails with
    [ZeroDivisionError], whatever the images are, before any file is
    created or written. *)
Theorem render_zero_drawable_height :
  forall (F : Type) (N : PyNum F) (P : Pillow) (self : LayoutEngine.LayoutEngine F)
         output_path q1 q2 q3 q4 (w : world F),
    is_zero (LayoutEngine.available_height self) = true ->
    LayoutEngine.occupied q1 = true \/ LayoutEngine.occupied q2 = true \/
    LayoutEngine.occupied q3 = true \/ LayoutEngine.occupied q4 = true ->
    exists w',
      LayoutEngine.generate_pdf self output_path q1 q2 q3 q4 w
        = (Raise ZeroDivisionError, w') /\
      fs w' = fs w /\ next_tmp w' = next_tmp w.
Proof.
  intros F N P self out q1 q2 q3 q4 w Hzero Hocc.
  assert (Hsome : LayoutEngine.drawn_quadrants (LayoutEngine.quadrants q1 q2 q3 q4) <> []).
  { unfold LayoutEngine.quadrants. cbn [LayoutEngine.drawn_quadrants].
    destruct q1 as [c1|], q2 as [c2|], q3 as [c3|], q4 as [c4|];
      repeat match goal with
             | |- context [LayoutEngine.occupied (Some ?c)] =>
                 destruct (LayoutEngine.occupied (Some c)) eqn:?
             end;
      try discriminate;
      destruct Hocc as [?|[?|[?|?]]]; discriminate. }
  unfold LayoutEngine.generate_pdf, mbind, io_bind, new_Canvas.
  rewrite (draw_quadrants_zero_height _ _ _ _ Hzero Hsome).
  eexists. split; [reflexivity|]. split; reflexivity.
Qed.

Lemma render_zero_drawable_height_witness :
  LayoutEngine.__init__ 2.75%float true = Ok engine_zero_height /\
  exists w' : world float,
    LayoutEngine.generate_pdf engine_zero_height "out.pdf"
      None (upright image_400x300) None None fresh_world
      = (Raise ZeroDivisionError, w') /\
    fs w' = ∅.
Proof.
  split; [reflexivity|].
  assert (Hzero : is_zero (LayoutEngine.available_height engine_zero_height) = true)
    by (vm_compute; reflexivity).
  destruct (render_zero_drawable_height float _ _ engine_zero_height "out.pdf"
              None (upright image_400x300) None None fresh_world Hzero)
    as (w' & Hrun & Hfs & _).
  - right. left. reflexivity.
  - by exists w'.
Defined.

(** ** Page selection: what it returns and how it fails *)

Section PageOutcome.
Import InputHandler.
Context {A : Type}.

Lemma getitem_Ok_elem (l : list A) (i : Z) (p : A) :
  getitem l i = Ok p -> p ∈ l.
Proof.
  unfold getitem. destruct (_ || _); [discriminate|].
  destruct (l !! _) as [x|] eqn:Hx; [|discriminate].
  intros [= <-]. by eapply list_elem_of_lookup_2.
Qed.

Lemma getitem_wraps (l : list A) (i : Z) :
  - Z.of_nat (length l) <= i < 0 ->
  getitem l (Z.of_nat (length l) + i) = getitem l i.
Proof.
  intros Hi.
  destruct (getitem_from_end l i Hi) as (p & Hp & ->).
  destruct (getitem_from_start l (Z.of_nat (length l) + i)) as (p' & Hp' & ->);
    [lia|].
  congruence.
Qed.

Lemma int_raises_ValueError (s : string) e :
  int s = Raise e -> e = ValueError (InvalidLiteral s).
Proof.
  unfold int. destruct (match c_strip s with EmptyString => _ | String _ _ => _ end);
    [discriminate|]. by intros [= <-].
Qed.

(** The numeric branch returns a page of the document or raises the
    [ValueError] that names the selector. *)
Lemma load_pdf_page_numeric (images : list A) (s : string) :
  let r := except_ValueError
             (page_num ← int s;
              let len := Z.of_nat (length images) in
              let page_index :=
                if page_num =? 0 then 0
                else if 0 <? page_num then page_num - 1
                else len + page_num in
              if (page_index <? 0) || (len <=? page_index) then
                Raise (ValueError (PageOutOfRange page_num (length images)))
              else getitem images page_index)
             (Raise (ValueError (InvalidPageSpec s (length images)))) in
  (exists p, r = Ok p /\ p ∈ images) \/
  r = Raise (ValueError (InvalidPageSpec s (length images))).
Proof.
  cbv zeta. destruct (int s) as [n|e] eqn:Hint.
  - cbn [mbind result_bind].
    set (idx := if n =? 0 then 0 else if 0 <? n then n - 1
                else Z.of_nat (length images) + n).
    destruct ((idx <? 0) || (Z.of_nat (length images) <=? idx)) eqn:Hout;
      [by right|].
    apply orb_false_iff in Hout as [H0 H1].
    destruct (getitem_from_start images idx) as (p & Hp & ->); [lia|].
    left. exists p. split; [done|]. by eapply list_elem_of_lookup_2.
  - apply int_raises_ValueError in Hint as ->. by right.
Qed.

Lemma load_pdf_page_Ok_elem (pdf_exists : bool) (images : list A) (s : string) p :
  load_pdf_page pdf_exists images s = Ok p -> p ∈ images.
Proof.
  destruct pdf_exists; [|discriminate].
  destruct (decide (images = [])) as [->|Hne]; [discriminate|].
  rewrite (load_pdf_page_nonempty _ _ Hne). cbv zeta.
  destruct (String.eqb s "last"); [apply getitem_Ok_elem|].
  destruct (String.eqb s "second-last").
  { destruct (_ <? 2); [discriminate|]. apply getitem_Ok_elem. }
  pose proof (load_pdf_page_numeric images s) as Hnum. cbv zeta in Hnum.
  destruct Hnum as [(q & -> & Hin)| ->]; [|discriminate]. by intros [= <-].
Qed.

End PageOutcome.

(** The selection on the pages the conversion returned: what it returns
    and how it fails. *)
Lemma load_pdf_page_selection :
  forall (A : Type) (pdf_exists : bool) (images : list A) (page_spec : string),
    let r := InputHandler.load_pdf_page pdf_exists images page_spec in
    (pdf_exists = false -> r = Raise FileNotFoundError) /\
    (pdf_exists = true -> images = [] -> r = Raise (ValueError PdfHasNoPages)) /\
    (forall p, r = Ok p -> pdf_exists = true /\ p ∈ images) /\
    (forall e, r = Raise e ->
       e = FileNotFoundError /\ pdf_exists = false \/
       pdf_exists = true /\
       (e = ValueError PdfHasNoPages /\ images = [] \/
        e = ValueError NoSecondLastPage /\ page_spec = "second-last" \/
        e = ValueError (InvalidPageSpec page_spec (length images)))).
Proof.
  intros A pdf_exists images page_spec r. subst r.
  destruct pdf_exists.
  2:{ unfold InputHandler.load_pdf_page. simpl.
      repeat split; try done. intros e [= <-]. by left. }
  destruct (decide (images = [])) as [->|Hne].
  { unfold InputHandler.load_pdf_page. simpl.
    repeat split; try done. intros e [= <-]. right. split; [done|]. by left. }
  rewrite (load_pdf_page_nonempty _ _ Hne). cbv zeta.
  assert (Hlen : 0 < Z.of_nat (length images)).
  { destruct images; [done|simpl; lia]. }
  split; [done|]. split; [done|].
  destruct (String.eqb_spec page_spec "last") as [->|Hlast].
  { destruct (getitem_from_end images (-1)) as (p & Hp & ->); [lia|].
    split; [|done]. intros q [= <-]. split; [done|].
    by eapply list_elem_of_lookup_2. }
  destruct (String.eqb_spec page_spec "second-last") as [->|Hsecond].
  { destruct (Z.of_nat (length images) <? 2) eqn:Hfew.
    - split; [done|]. intros e [= <-]. right. split; [done|]. right. by left.
    - destruct (getitem_from_end images (-2)) as (p & Hp & ->); [lia|].
      split; [|done]. intros q [= <-]. split; [done|].
      by eapply list_elem_of_lookup_2. }
  pose proof (load_pdf_page_numeric images page_spec) as Hnum. cbv zeta in Hnum.
  destruct Hnum as [(p & -> & Hp)| ->].
  - split; [|done]. by intros q [= <-].
  - split; [done|]. intros e [= <-]. right. split; [done|]. by right; right.
Qed.

(** X8: [load_pdf_page] on a path. It fails with [FileNotFoundError] when
    the file is missing; an exception of [convert_from_path] passes
    through, the call has no handler; and when the conversion returns, it
    returns only pages of the document and fails only with one of three
    [ValueError]s: no pages, no second-last page, or the invalid selector
    with the valid range. An [IndexError] or the inner out-of-range and
    literal errors never reach the caller. *)
Theorem load_pdf_page_outcome :
  forall (D : Disk) (pdf_path page_spec : string) (dpi : Z),
    let r := InputFiles.load_pdf_page pdf_path page_spec dpi in
    (path_exists pdf_path = false -> r = Raise FileNotFoundError) /\
    (forall e, path_exists pdf_path = true ->
       convert_from_path pdf_path dpi = Raise e -> r = Raise e) /\
    (forall images, path_exists pdf_path = true ->
       convert_from_path pdf_path dpi = Ok images ->
       (images = [] -> r = Raise (ValueError PdfHasNoPages)) /\
       (forall p, r = Ok p -> p ∈ images) /\
       (forall e, r = Raise e ->
          e = ValueError PdfHasNoPages /\ images = [] \/
          e = ValueError NoSecondLastPage /\ page_spec = "second-last" \/
          e = ValueError (InvalidPageSpec page_spec (length images)))).
Proof.
  intros D pdf_path page_spec dpi r. subst r. unfold InputFiles.load_pdf_page.
  split; [by intros ->|]. split.
  - intros e -> Hconv. cbn [negb]. by rewrite Hconv.
  - intros images -> Hconv. cbn [negb]. rewrite Hconv. cbn [mbind result_bind].
    destruct (load_pdf_page_selection Image true images page_spec)
      as (_ & Hnone & Hok & Hraise). cbv zeta in *.
    split; [by apply Hnone|]. split.
    + intros p Hp. by destruct (Hok p Hp).
    + intros e He. destruct (Hraise e He) as [[_ ?]|[_ ?]]; done.
Qed.

Lemma load_pdf_page_outcome_witness :
  InputFiles.load_pdf_page "none.pdf" "last" 200 = Raise FileNotFoundError /\
  InputFiles.load_pdf_page "photo.png" "last" 200 = Raise OSError /\
  (forall p, InputFiles.load_pdf_page "label.pdf" " 2 " 200 = Ok p ->
             p ∈ [page_200dpi; image_400x300]) /\
  InputFiles.load_pdf_page "label.pdf" "two" 200
    = Raise (ValueError (InvalidPageSpec "two" 2)).
Proof.
  destruct (load_pdf_page_outcome sample_disk "none.pdf" "last" 200) as (H1 & _).
  destruct (load_pdf_page_outcome sample_disk "photo.png" "last" 200)
    as (_ & H2 & _).
  destruct (load_pdf_page_outcome sample_disk "label.pdf" " 2 " 200)
    as (_ & _ & H3).
  destruct (load_pdf_page_outcome sample_disk "label.pdf" "two" 200)
    as (_ & _ & H4).
  cbv zeta in *.
  split; [by apply H1|]. split; [by apply H2|].
  destruct (H3 [page_200dpi; image_400x300] eq_refl eq_refl) as (_ & H3' & _).
  split; [exact H3'|].
  destruct (H4 [page_200dpi; image_400x300] eq_refl eq_refl) as (_ & _ & H4').
  destruct (InputFiles.load_pdf_page "label.pdf" "two" 200) as [p|e] eqn:Hrun;
    [vm_compute in Hrun; discriminate|].
  destruct (H4' e eq_refl) as [[_ ?]|[[_ ?]| ->]]; done.
Defined.

(** X9: the selector ["-1"] is the selector ["last"] on every input, and
    ["-2"] is ["second-last"] on every document that does not have exactly
    one page; on a one-page document both fail, ["second-last"] because
    there is no such page and ["-2"] as an invalid selector. *)
Theorem negative_selectors_are_names :
  forall (A : Type) (pdf_exists : bool) (images : list A),
    InputHandler.load_pdf_page pdf_exists images "-1"
      = InputHandler.load_pdf_page pdf_exists images "last" /\
    (length images <> 1%nat ->
     InputHandler.load_pdf_page pdf_exists images "-2"
       = InputHandler.load_pdf_page pdf_exists images "second-last") /\
    (length images = 1%nat ->
     InputHandler.load_pdf_page true images "-2"
       = Raise (ValueError (InvalidPageSpec "-2" 1)) /\
     InputHandler.load_pdf_page true images "second-last"
       = Raise (ValueError NoSecondLastPage)).
Proof.
  intros A pdf_exists images.
  assert (Hbody : images <> [] ->
    let len := Z.of_nat (length images) in
    InputHandler.load_pdf_page true images "-1" =
      (if (len + -1 <? 0) || (len <=? len + -1)
       then Raise (ValueError (InvalidPageSpec "-1" (length images)))
       else except_ValueError (getitem images (len + -1))
              (Raise (ValueError (InvalidPageSpec "-1" (length images))))) /\
    InputHandler.load_pdf_page true images "-2" =
      (if (len + -2 <? 0) || (len <=? len + -2)
       then Raise (ValueError (InvalidPageSpec "-2" (length images)))
       else except_ValueError (getitem images (len + -2))
              (Raise (ValueError (InvalidPageSpec "-2" (length images))))) /\
    InputHandler.load_pdf_page true images "last" = getitem images (-1) /\
    InputHandler.load_pdf_page true images "second-last" =
      (if len <? 2 then Raise (ValueError NoSecondLastPage)
       else getitem images (-2))).
  { intros Hne. rewrite !(load_pdf_page_nonempty _ _ Hne). cbv zeta.
    repeat split; try reflexivity.
    - change (String.eqb "-1" "last") with false.
      change (String.eqb "-1" "second-last") with false.
      change (int "-1") with (Ok (-1)). cbn [mbind result_bind].
      change (-1 =? 0) with false. change (0 <? -1) with false. cbv iota.
      by destruct (_ || _).
    - change (String.eqb "-2" "last") with false.
      change (String.eqb "-2" "second-last") with false.
      change (int "-2") with (Ok (-2)). cbn [mbind result_bind].
      change (-2 =? 0) with false. change (0 <? -2) with false. cbv iota.
      by destruct (_ || _). }
  assert (Hlen : images <> [] -> 0 < Z.of_nat (length images)).
  { destruct images; [done|simpl; lia]. }
  split; [|split].
  - destruct pdf_exists; [|done].
    destruct (decide (images = [])) as [->|Hne]; [done|].
    destruct (Hbody Hne) as (-> & _ & -> & _). specialize (Hlen Hne).
    destruct (Z.of_nat (length images) + -1 <? 0) eqn:E0; [lia|].
    destruct (Z.of_nat (length images) <=? Z.of_nat (length images) + -1) eqn:E1;
      [lia|].
    cbn [orb]. rewrite getitem_wraps by lia.
    destruct (getitem_from_end images (-1)) as (p & _ & ->); [lia|done].
  - intros Hn1. destruct pdf_exists; [|done].
    destruct (decide (images = [])) as [->|Hne]; [done|].
    destruct (Hbody Hne) as (_ & -> & _ & ->). specialize (Hlen Hne).
    destruct (Z.of_nat (length images) <? 2) eqn:Hfew; [lia|].
    destruct (Z.of_nat (length images) + -2 <? 0) eqn:E0; [lia|].
    destruct (Z.of_nat (length images) <=? Z.of_nat (length images) + -2) eqn:E1;
      [lia|].
    cbn [orb]. rewrite getitem_wraps by lia.
    destruct (getitem_from_end images (-2)) as (p & _ & ->); [lia|done].
  - intros Hn1.
    assert (Hne : images <> []) by (intros ->; discriminate).
    destruct (Hbody Hne) as (_ & -> & _ & ->). rewrite Hn1. by split.
Qed.

Lemma negative_selectors_are_names_witness :
  InputHandler.load_pdf_page true [10; 20; 30] "-2" = Ok 20 /\
  InputHandler.load_pdf_page true [10] "-2"
    = Raise (ValueError (InvalidPageSpec "-2" 1)).
Proof.
  destruct (negative_selectors_are_names Z true [10; 20; 30]) as (_ & H2 & _).
  destruct (negative_selectors_are_names Z true [10]) as (_ & _ & H1).
  split.
  - rewrite H2 by (simpl; lia). reflexivity.
  - by apply H1.
Defined.

(** ** Loading images and dispatching on the suffix *)

(** X10: [load_image] fails with [FileNotFoundError] when the file is
    missing and otherwise only with the [ValueError] that wraps the
    decoder's failure. An image it returns has mode RGB or L (given that
    [convert] yields the mode it is asked for), so the layout engine can
    write it as JPEG; an image that is already RGB or L is returned as
    decoded. *)
Theorem load_image_outcome :
  forall (D : Disk),
    (forall i m, img_mode (convert i m) = m) ->
    forall image_path : string,
      (path_exists image_path = false ->
       InputFiles.load_image image_path
         = Raises (InputFiles.Builtin FileNotFoundError)) /\
      (forall img, InputFiles.load_image image_path = Returns img ->
         path_exists image_path = true /\
         (img_mode img = ModeRGB \/ img_mode img = ModeL) /\
         jpeg_mode (img_mode img) = true) /\
      (forall i, path_exists image_path = true ->
         Image_open image_path = Ok i ->
         img_mode i = ModeRGB \/ img_mode i = ModeL ->
         InputFiles.load_image image_path = Returns i) /\
      (forall e, InputFiles.load_image image_path = Raises e ->
         e = InputFiles.Builtin FileNotFoundError /\ path_exists image_path = false \/
         exists cause, e = InputFiles.FailedToLoadImage image_path cause /\
                       Image_open image_path = Raise cause).
Proof.
  intros D Hconvert image_path. unfold InputFiles.load_image.
  destruct (path_exists image_path); simpl.
  2:{ repeat split; try done. intros e [= <-]. by left. }
  split; [done|].
  destruct (Image_open image_path) as [i|cause].
  - split; [|split].
    + intros img Himg. split; [done|].
      destruct (img_mode i) eqn:Hmode; injection Himg as <-;
        rewrite ?Hconvert, ?Hmode; auto.
    + intros j _ [= <-] [Hm|Hm]; by rewrite Hm.
    + intros e He. by destruct (img_mode i).
  - split; [done|]. split; [done|].
    intros e [= <-]. right. by exists cause.
Qed.

Lemma load_image_outcome_witness :
  InputFiles.load_image "missing.png" = Raises (InputFiles.Builtin FileNotFoundError) /\
  (exists img, InputFiles.load_image "photo.png" = Returns img /\
               img_mode img = ModeRGB) /\
  InputFiles.load_image "scan.JPG" = Returns image_400x300 /\
  InputFiles.load_image "broken.gif"
    = Raises (InputFiles.FailedToLoadImage "broken.gif" OSError).
Proof.
  assert (Hconvert : forall i m, img_mode (convert i m) = m) by done.
  destruct (load_image_outcome sample_disk Hconvert "missing.png") as (H1 & _).
  destruct (load_image_outcome sample_disk Hconvert "photo.png") as (_ & H2 & _).
  destruct (load_image_outcome sample_disk Hconvert "scan.JPG") as (_ & _ & H3 & _).
  destruct (load_image_outcome sample_disk Hconvert "broken.gif") as (_ & _ & _ & H4).
  split; [by apply H1|]. split; [|split].
  - eexists. split; [reflexivity|]. reflexivity.
  - apply H3; [reflexivity|reflexivity|by left].
  - destruct (InputFiles.load_image "broken.gif") as [img|e] eqn:Hrun;
      [vm_compute in Hrun; discriminate|].
    destruct (H4 e eq_refl) as [[_ Hex]|(cause & -> & Hcause)];
      [vm_compute in Hex; discriminate|].
    vm_compute in Hcause. by injection Hcause as <-.
Defined.

(** X11: [load_input] chooses the loader from the lower-cased suffix before
    it touches any file. A suffix that is neither [.pdf] nor an image
    suffix is rejected on every disk; for an image suffix the page
    selector and the resolution are ignored; for [.pdf] a missing file is
    [FileNotFoundError] and a returned image is one of the pages the
    conversion produced. *)
Theorem load_input_dispatch :
  forall (D : Disk) (file_path page_spec : string) (dpi : Z),
    let suffix := lower (path_suffix file_path) in
    (suffix <> ".pdf" -> suffix ∉ InputFiles.image_suffixes ->
     forall D' : Disk,
       @InputFiles.load_input D' file_path page_spec dpi
         = Raises (InputFiles.UnsupportedFileFormat suffix)) /\
    (suffix ∈ InputFiles.image_suffixes ->
     forall page_spec' dpi',
       InputFiles.load_input file_path page_spec dpi
         = InputFiles.load_image file_path /\
       InputFiles.load_input file_path page_spec' dpi'
         = InputFiles.load_input file_path page_spec dpi) /\
    (suffix = ".pdf" -> path_exists file_path = false ->
     InputFiles.load_input file_path page_spec dpi
       = Raises (InputFiles.Builtin FileNotFoundError)) /\
    (suffix = ".pdf" ->
     forall img, InputFiles.load_input file_path page_spec dpi = Returns img ->
       exists images, convert_from_path file_path dpi = Ok images /\ img ∈ images).
Proof.
  intros D file_path page_spec dpi suffix.
  assert (Hnot : ".pdf" ∉ InputFiles.image_suffixes).
  { intros Hin. unfold InputFiles.image_suffixes in Hin.
    repeat (apply elem_of_cons in Hin as [Hin|Hin]; [discriminate|]).
    by apply elem_of_nil in Hin. }
  assert (Himage : suffix ∈ InputFiles.image_suffixes ->
            forall page_spec' dpi',
              InputFiles.load_input file_path page_spec' dpi'
                = InputFiles.load_image file_path).
  { intros Hin page_spec' dpi'. unfold InputFiles.load_input. fold suffix.
    destruct (String.eqb_spec suffix ".pdf") as [Heq|_].
    - by rewrite Heq in Hin.
    - by rewrite bool_decide_eq_true_2. }
  split; [|split; [|split]].
  - intros Hpdf Himg D'. unfold InputFiles.load_input. fold suffix.
    destruct (String.eqb_spec suffix ".pdf") as [?|_]; [done|].
    by rewrite bool_decide_eq_false_2.
  - intros Hin page_spec' dpi'. by rewrite !Himage.
  - intros Hpdf Hmissing. unfold InputFiles.load_input. fold suffix.
    rewrite Hpdf. cbn [String.eqb Ascii.eqb Bool.eqb].
    unfold InputFiles.load_pdf_page. by rewrite Hmissing.
  - intros Hpdf img. unfold InputFiles.load_input. fold suffix.
    rewrite Hpdf. cbn [String.eqb Ascii.eqb Bool.eqb].
    unfold InputFiles.load_pdf_page.
    destruct (path_exists file_path); cbn [negb]; [|discriminate].
    destruct (convert_from_path file_path dpi) as [images|e]; [|discriminate].
    cbn [mbind result_bind].
    destruct (InputHandler.load_pdf_page true images page_spec) as [p|e] eqn:Hload;
      [|discriminate].
    intros [= <-]. exists images. split; [done|].
    by eapply load_pdf_page_Ok_elem.
Qed.

Lemma load_input_dispatch_witness :
  InputFiles.load_input "archive.zip" "last" 300
    = Raises (InputFiles.UnsupportedFileFormat ".zip") /\
  InputFiles.load_input "scan.JPG" "second-last" 72
    = InputFiles.load_input "scan.JPG" "last" 300 /\
  InputFiles.load_input "missing.PDF" "last" 300
    = Raises (InputFiles.Builtin FileNotFoundError) /\
  (forall img, InputFiles.load_input "label.pdf" "2" 300 = Returns img ->
               img ∈ [page_200dpi; image_400x300]).
Proof.
  destruct (load_input_dispatch sample_disk "archive.zip" "last" 300)
    as (Hzip & _).
  destruct (load_input_dispatch sample_disk "scan.JPG" "last" 300)
    as (_ & Hjpg & _).
  destruct (load_input_dispatch sample_disk "missing.PDF" "last" 300)
    as (_ & _ & Hmissing & _).
  destruct (load_input_dispatch sample_disk "label.pdf" "2" 300)
    as (_ & _ & _ & Hpdf).
  cbv zeta in *. split; [|split; [|split]].
  - apply (Hzip ltac:(discriminate)).
    intros Hin. vm_compute in Hin.
    repeat (apply elem_of_cons in Hin as [Hin|Hin]; [discriminate|]).
    by apply elem_of_nil in Hin.
  - apply Hjpg. vm_compute. left.
  - by apply Hmissing.
  - intros img Himg. destruct (Hpdf eq_refl img Himg) as (images & Hconv & Hin).
    vm_compute in Hconv. by injection Hconv as <-.
Defined.

(** ** The command line: input specifications and the search for a file *)

Section InputSpec.

Lemma split_on_free (sep : ascii) (s : string) :
  has_char sep s = false -> split_on sep s = [s].
Proof.
  induction s as [|c s IH]; [done|]. simpl.
  destruct (Ascii.eqb c sep); [discriminate|]. simpl.
  intros Hfree. by rewrite (IH Hfree).
Qed.

Lemma split_on_cons (sep : ascii) (s rest : string) :
  has_char sep s = false ->
  split_on sep (s ++ String sep rest) = s :: split_on sep rest.
Proof.
  induction s as [|c s IH]; simpl.
  - by rewrite Ascii.eqb_refl.
  - destruct (Ascii.eqb c sep); [discriminate|]. simpl.
    intros Hfree. by rewrite (IH Hfree).
Qed.

Lemma split_on_nonempty (sep : ascii) (s : string) :
  exists part parts, split_on sep s = part :: parts.
Proof.
  induction s as [|c s (part & parts & IH)]; simpl; [by eexists _, _|].
  destruct (Ascii.eqb c sep); [by eexists _, _|].
  rewrite IH. by eexists _, _.
Qed.

Lemma getitem_lookup {A} (l : list A) (i : Z) (p : A) :
  0 <= i -> l !! Z.to_nat i = Some p -> getitem l i = Ok p.
Proof.
  intros Hi Hp. pose proof (lookup_lt_Some _ _ _ Hp) as Hlt.
  destruct (getitem_from_start l i) as (q & Hq & ->); [lia|]. congruence.
Qed.

(** The body of [parse_input_spec] on one, two, and three or more
    parts. *)
Lemma parse_input_spec_parts (spec : string) :
  (forall file, split_on ":" spec = [file] ->
     Cli.parse_input_spec spec = Ok (file, "last", 0)) /\
  (forall file page, split_on ":" spec = [file; page] ->
     Cli.parse_input_spec spec = Ok (file, page, 0)) /\
  (forall file page rot rest, split_on ":" spec = file :: page :: rot :: rest ->
     Cli.parse_input_spec spec = (rotation ← int rot; Ok (file, page, rotation))).
Proof.
  unfold Cli.parse_input_spec. repeat split.
  - by intros file ->.
  - by intros file page ->.
  - intros file page rot rest ->.
    rewrite (getitem_lookup _ 0 file), (getitem_lookup _ 1 page),
      (getitem_lookup _ 2 rot) by done.
    cbn [length].
    assert (Hl1 : (1 <? Z.of_nat (S (S (S (length rest))))) = true)
      by (apply Z.ltb_lt; lia).
    assert (Hl2 : (2 <? Z.of_nat (S (S (S (length rest))))) = true)
      by (apply Z.ltb_lt; lia).
    rewrite Hl1, Hl2.
    cbn [mbind result_bind mret result_ret]. by destruct (int rot).
Qed.

End InputSpec.

(** X12: [parse_input_spec] gives back the fields of a colon-separated
    specification: a bare file gets the page ["last"] and the rotation 0,
    [file:page] gets the rotation 0, [file:page:rotation] gets the number
    [int] reads from the third field, and anything after a third colon is
    ignored. It fails only with the [ValueError] of [int] on the third
    field, never with an [IndexError]. *)
Theorem parse_input_spec_fields :
  forall file page rot extra : string,
    has_char ":" file = false -> has_char ":" page = false ->
    has_char ":" rot = false ->
    Cli.parse_input_spec file = Ok (file, "last", 0) /\
    Cli.parse_input_spec (file ++ ":" ++ page) = Ok (file, page, 0) /\
    Cli.parse_input_spec (file ++ ":" ++ page ++ ":" ++ rot)
      = (rotation ← int rot; Ok (file, page, rotation)) /\
    Cli.parse_input_spec (file ++ ":" ++ page ++ ":" ++ rot ++ ":" ++ extra)
      = (rotation ← int rot; Ok (file, page, rotation)) /\
    (forall spec e, Cli.parse_input_spec spec = Raise e ->
       exists s, e = ValueError (InvalidLiteral s)).
Proof.
  intros file page rot extra Hfile Hpage Hrot. repeat split.
  - apply (proj1 (parse_input_spec_parts _)). by apply split_on_free.
  - apply (proj1 (proj2 (parse_input_spec_parts _))).
    change (file ++ ":" ++ page) with (file ++ String ":" page).
    by rewrite (split_on_cons _ _ _ Hfile), (split_on_free _ _ Hpage).
  - apply (proj2 (proj2 (parse_input_spec_parts _)) file page rot []).
    change (file ++ ":" ++ page ++ ":" ++ rot)
      with (file ++ String ":" (page ++ String ":" rot)).
    by rewrite (split_on_cons _ _ _ Hfile), (split_on_cons _ _ _ Hpage),
      (split_on_free _ _ Hrot).
  - apply (proj2 (proj2 (parse_input_spec_parts _)) file page rot
             (split_on ":" extra)).
    change (file ++ ":" ++ page ++ ":" ++ rot ++ ":" ++ extra)
      with (file ++ String ":" (page ++ String ":" (rot ++ String ":" extra))).
    by rewrite (split_on_cons _ _ _ Hfile), (split_on_cons _ _ _ Hpage),
      (split_on_cons _ _ _ Hrot).
  - intros spec e Hraise.
    destruct (parse_input_spec_parts spec) as (H1 & H2 & H3).
    destruct (split_on_nonempty ":" spec) as (f & rest & Hsplit).
    destruct rest as [|p [|r rest]].
    + rewrite (H1 _ Hsplit) in Hraise. discriminate.
    + rewrite (H2 _ _ Hsplit) in Hraise. discriminate.
    + rewrite (H3 _ _ _ _ Hsplit) in Hraise.
      destruct (int r) as [n|e'] eqn:Hint; [discriminate|].
      injection Hraise as <-. apply int_raises_ValueError in Hint. by eexists.
Qed.

Lemma parse_input_spec_fields_witness :
  Cli.parse_input_spec "label.pdf" = Ok ("label.pdf", "last", 0) /\
  Cli.parse_input_spec "notes.pdf:2:-90" = Ok ("notes.pdf", "2", -90) /\
  Cli.parse_input_spec "notes.pdf:2:-90:draft" = Ok ("notes.pdf", "2", -90).
Proof.
  destruct (parse_input_spec_fields "label.pdf" "" "" "" eq_refl eq_refl eq_refl)
    as (H1 & _).
  destruct (parse_input_spec_fields "notes.pdf" "2" "-90" "draft"
              eq_refl eq_refl eq_refl) as (_ & _ & H3 & H4 & _).
  split; [exact H1|]. split; [exact H3|exact H4].
Defined.

(** X13: [resolve_file_path] returns only the canonical form of a file that
    exists, one of: the given path, the same path under Downloads, or, for
    an absolute path, its file name under Downloads. An absolute path that
    exists is taken as it is; a relative one is looked up in Downloads
    first, so a file there wins over a file of the same name in the
    current directory. It fails with [FileNotFoundError] exactly when none
    of the places it looks at has the file. *)
Theorem resolve_file_path_search :
  forall (P : Paths) (file : string),
    let path := expanduser (strip file) in
    let downloads_path := joinpath DEFAULT_DOWNLOADS path in
    let fallback := joinpath DEFAULT_DOWNLOADS (path_name path) in
    (forall r, Cli.resolve_file_path file = Ok r ->
       exists q, r = resolved q /\ file_exists q = true /\
                 (q = path \/ q = downloads_path \/
                  is_absolute path = true /\ q = fallback)) /\
    (is_absolute path = true -> file_exists path = true ->
     Cli.resolve_file_path file = Ok (resolved path)) /\
    (is_absolute path = false -> file_exists downloads_path = true ->
     Cli.resolve_file_path file = Ok (resolved downloads_path)) /\
    (forall e, Cli.resolve_file_path file = Raise e ->
       e = FileNotFoundError /\
       file_exists path = false /\ file_exists downloads_path = false /\
       (is_absolute path = true -> file_exists fallback = false)) /\
    (file_exists path = false -> file_exists downloads_path = false ->
     (is_absolute path = true -> file_exists fallback = false) ->
     Cli.resolve_file_path file = Raise FileNotFoundError).
Proof.
  intros P file path downloads_path fallback. unfold Cli.resolve_file_path.
  cbv zeta. fold path. fold fallback. fold downloads_path.
  destruct (is_absolute path) eqn:Habs, (file_exists path) eqn:Hpath,
    (file_exists fallback) eqn:Hfb, (file_exists downloads_path) eqn:Hdl;
    (split; [|split; [|split; [|split]]]);
    try done;
    try (intros e [= <-]; done);
    try (intros Hp Hd Hf; by specialize (Hf eq_refl));
    intros r [= <-]; eexists; (split; [reflexivity|]);
    (split; [eassumption|]);
    first [by left | by right; left | by right; right].
Qed.

Lemma resolve_file_path_search_witness :
  Cli.resolve_file_path " label.pdf " = Ok "/home/u/Downloads/label.pdf" /\
  Cli.resolve_file_path "/home/u/Downloads/label.pdf"
    = Ok "/home/u/Downloads/label.pdf" /\
  (exists q, Cli.resolve_file_path "notes.pdf" = Ok (resolved q) /\
             file_exists q = true) /\
  Cli.resolve_file_path "absent.pdf" = Raise FileNotFoundError.
Proof.
  destruct (resolve_file_path_search sample_paths " label.pdf ")
    as (_ & _ & Hdl & _).
  destruct (resolve_file_path_search sample_paths "/home/u/Downloads/label.pdf")
    as (_ & Habs & _).
  destruct (resolve_file_path_search sample_paths "notes.pdf")
    as (Hnotes & _).
  destruct (resolve_file_path_search sample_paths "absent.pdf")
    as (_ & _ & _ & _ & Hnone).
  cbv zeta in *. split; [|split; [|split]].
  - by apply Hdl.
  - by apply Habs.
  - destruct (Hnotes "/home/u/work/notes.pdf" eq_refl) as (q & Hq & Hex & _).
    exists q. split; [|exact Hex]. by rewrite <- Hq.
  - by apply Hnone.
Defined.

(** ** Presets: listing, looking up, resolving *)

Section PresetTable.
Import ConfigManager.

Lemma resolve_quadrants_Raise input_file overrides items res e :
  resolve_quadrants input_file overrides items res = Raise e ->
  e = KeyError "source" \/ exists s, e = ValueError (InvalidLiteral s).
Proof.
  revert res. induction items as [|[k config] rest IH]; intros res Hrun;
    [discriminate|].
  cbn [resolve_quadrants] in Hrun.
  destruct (int_key k) as [q|e'] eqn:Hk.
  - cbn [mbind result_bind] in Hrun.
    destruct (overridden overrides q); [by eapply IH|].
    destruct (config !! "source") as [source|].
    + cbn [mbind result_bind] in Hrun. by eapply IH.
    + injection Hrun as <-. by left.
  - injection Hrun as <-. right. destruct k as [z|s]; [discriminate|].
    apply int_raises_ValueError in Hk. by eexists.
Qed.

Lemma quadrant_source source page rotation :
  quadrant source page rotation !! "source" = Some (VStr source).
Proof. unfold quadrant. by rewrite lookup_insert_eq. Qed.

Lemma resolved_entry_quadrant input_file source page rotation :
  resolved_entry input_file (quadrant source page rotation) (VStr source)
  = quadrant (if bool_decide (source = "{input}") then input_file else source)
             page rotation.
Proof.
  unfold resolved_entry, quadrant.
  rewrite !lookup_insert_ne, !lookup_insert_eq by done.
  rewrite lookup_insert_ne, lookup_insert_ne, lookup_singleton_eq by done.
  simpl. f_equal.
  destruct (decide (source = "{input}")) as [->|Hne].
  - by rewrite !bool_decide_eq_true_2.
  - rewrite !bool_decide_eq_false_2; [done..|]. by intros [= ?].
Qed.

(** Every entry of a built-in preset has a numeric key and the
    placeholder as its source. *)
Lemma builtin_items (name : string) (p : preset) :
  BUILTIN_PRESETS !! name = Some p ->
  exists items,
    quadrants p = Some items /\ is_Some (description p) /\
    Forall (fun kc => exists z page rotation,
              kc = (KInt z, quadrant "{input}" page rotation)) items.
Proof.
  unfold BUILTIN_PRESETS. intros Hp.
  repeat (apply lookup_insert_Some in Hp as [[_ <-]|[_ Hp]];
          [eexists; split; [reflexivity|]; split; [by eexists|];
           repeat constructor; by eexists _, _, _|]).
  apply lookup_singleton_Some in Hp as [_ <-].
  eexists. split; [reflexivity|]. split; [by eexists|].
  repeat constructor; by eexists _, _, _.
Qed.

End PresetTable.

(** X14: the presets [list_presets] shows are the presets [get_preset]
    finds. A user preset hides a built-in preset of the same name in both:
    the lookup returns the user's preset and the listing shows the user's
    description, ["Custom preset"] when it has none. *)
Theorem listed_iff_found :
  forall (self : ConfigManager.ConfigManager) (name : string),
    (is_Some (Presets.list_presets self !! name)
     <-> is_Some (ConfigManager.get_preset self name)) /\
    (forall p, ConfigManager._user_presets self !! name = Some p ->
       ConfigManager.get_preset self name = Some p /\
       Presets.list_presets self !! name
         = Some (default "Custom preset" (description p))) /\
    (ConfigManager._user_presets self !! name = None ->
     ConfigManager.get_preset self name = ConfigManager.BUILTIN_PRESETS !! name /\
     Presets.list_presets self !! name
       = (fun p => default "" (description p))
           <$> ConfigManager.BUILTIN_PRESETS !! name).
Proof.
  intros self name. unfold Presets.list_presets, ConfigManager.get_preset.
  rewrite lookup_union, !lookup_fmap.
  destruct (ConfigManager._user_presets self !! name) as [p|] eqn:Huser;
    cbn [fmap option_fmap option_map].
  - split; [|split; [|done]].
    + destruct (ConfigManager.BUILTIN_PRESETS !! name); by split; eexists.
    + intros q [= <-]. split; [done|].
      by destruct (ConfigManager.BUILTIN_PRESETS !! name).
  - split; [|split; [done|]].
    + destruct (ConfigManager.BUILTIN_PRESETS !! name) as [b|]; [by split; eexists|].
      split; intros [? ?]; discriminate.
    + intros _. split; [done|].
      by destruct (ConfigManager.BUILTIN_PRESETS !! name).
Qed.

Lemma listed_iff_found_witness :
  ConfigManager.get_preset emptied_standard "standard"
    = Some {| description := None; quadrants := None |} /\
  Presets.list_presets emptied_standard !! "standard" = Some "Custom preset" /\
  Presets.list_presets emptied_standard !! "notes-q4"
    = Some "Notes in bottom-right quadrant".
Proof.
  destruct (listed_iff_found emptied_standard "standard") as (_ & Huser & _).
  destruct (listed_iff_found emptied_standard "notes-q4") as (_ & _ & Hbuiltin).
  destruct (Huser _ eq_refl) as [Hget Hlist].
  destruct (Hbuiltin eq_refl) as [_ Hlist4].
  split; [exact Hget|]. split; [exact Hlist|]. rewrite Hlist4. reflexivity.
Defined.

(** X15: [resolve_preset] reports "not found" for every name that is not
    listed, and also for a listed name whose user preset is an empty
    mapping, even when a built-in preset has that name. For any other
    name it fails only with the [KeyError] of an entry without a source or
    the [ValueError] of a quadrant key that is not a number. *)
Theorem preset_not_found :
  forall (self : ConfigManager.ConfigManager) (name input_file : string)
         (overrides : option (gmap Z (gmap string value))),
    let r := ConfigManager.resolve_preset self name input_file overrides in
    (Presets.list_presets self !! name = None ->
     r = Raise (ValueError (PresetNotFound name))) /\
    (ConfigManager._user_presets self !! name
       = Some {| description := None; quadrants := None |} ->
     is_Some (Presets.list_presets self !! name) /\
     r = Raise (ValueError (PresetNotFound name))) /\
    (forall p, ConfigManager.get_preset self name = Some p ->
       p <> {| description := None; quadrants := None |} ->
       forall e, r = Raise e ->
         e = KeyError "source" \/ exists s, e = ValueError (InvalidLiteral s)).
Proof.
  intros self name input_file overrides r. subst r.
  unfold ConfigManager.resolve_preset. split; [|split].
  - intros Hlist.
    assert (Hget : ConfigManager.get_preset self name = None).
    { unfold Presets.list_presets, ConfigManager.get_preset in *.
      rewrite lookup_union, !lookup_fmap in Hlist.
      destruct (ConfigManager._user_presets self !! name),
        (ConfigManager.BUILTIN_PRESETS !! name); by simpl in Hlist. }
    by rewrite Hget.
  - intros Huser. split.
    + unfold Presets.list_presets. rewrite lookup_union, !lookup_fmap, Huser.
      by destruct (ConfigManager.BUILTIN_PRESETS !! name); eexists.
    + unfold ConfigManager.get_preset. by rewrite Huser.
  - intros p -> Hp e.
    assert (Hnot : ConfigManager.not_preset (Some p) = false).
    { destruct p as [[d|] [qs|]]; done. }
    rewrite Hnot.
    destruct (ConfigManager.resolve_quadrants _ _ _ _) as [res|e'] eqn:Hloop.
    + cbn [mbind result_bind]. destruct overrides as [o|]; [|discriminate].
      destruct (bool_decide (o = ∅)); discriminate.
    + intros [= <-]. by eapply resolve_quadrants_Raise.
Qed.

Lemma preset_not_found_witness :
  ConfigManager.resolve_preset builtin_only "shipping-label-with-notes" "in.pdf" None
    = Raise (ValueError (PresetNotFound "shipping-label-with-notes")) /\
  ConfigManager.resolve_preset emptied_standard "standard" "in.pdf" None
    = Raise (ValueError (PresetNotFound "standard")).
Proof.
  destruct (preset_not_found builtin_only "shipping-label-with-notes" "in.pdf" None)
    as (Hunlisted & _).
  destruct (preset_not_found emptied_standard "standard" "in.pdf" None)
    as (_ & Hempty & _).
  split.
  - by apply Hunlisted.
  - by apply Hempty.
Defined.

(** X16: a built-in preset that no user preset hides resolves on every
    input file and every override mapping, and each quadrant it
    contributes has exactly the three fields, with the input file as its
    source. *)
Theorem builtin_presets_resolve :
  forall (self : ConfigManager.ConfigManager) (name input_file : string)
         (overrides : option (gmap Z (gmap string value))),
    ConfigManager._user_presets self !! name = None ->
    is_Some (ConfigManager.BUILTIN_PRESETS !! name) ->
    exists r,
      ConfigManager.resolve_preset self name input_file overrides = Ok r /\
      forall q e,
        ConfigManager.override overrides q = None -> r !! q = Some e ->
        exists page rotation,
          e = ConfigManager.quadrant input_file page rotation.
Proof.
  intros self name input_file overrides Huser [p Hp].
  destruct (builtin_items name p Hp) as (items & Hitems & [d Hd] & Hall).
  unfold ConfigManager.resolve_preset, ConfigManager.get_preset.
  rewrite Huser, Hp. cbn [mbind option_bind default].
  rewrite Hitems. cbn [default].
  assert (Hnot : ConfigManager.not_preset (Some p) = false).
  { destruct p as [[?|] [?|]]; done. }
  rewrite Hnot.
  destruct (resolve_quadrants_returns input_file overrides items ∅) as [res Hloop].
  { intros k config Hin.
    destruct (proj1 (Forall_forall _ _) Hall _ Hin) as (z & page & rot & [= -> ->]).
    exists z. split; [done|]. intros _. rewrite quadrant_source. by eexists. }
  change (Datatypes.id items) with items.
  rewrite Hloop. cbn [mbind result_bind].
  apply resolve_quadrants_Ok in Hloop as (Hfrom & _ & _).
  assert (Hres : forall q e, res !! q = Some e ->
            exists page rotation, e = ConfigManager.quadrant input_file page rotation).
  { intros q e Hq.
    destruct (Hfrom q e Hq) as [Hempty|(k & c & src & Hin & _ & _ & Hsrc & ->)].
    { by rewrite lookup_empty in Hempty. }
    destruct (proj1 (Forall_forall _ _) Hall _ Hin) as (z & page & rot & [= -> ->]).
    rewrite quadrant_source in Hsrc. injection Hsrc as <-.
    exists page, rot. rewrite resolved_entry_quadrant.
    by rewrite bool_decide_eq_true_2. }
  destruct overrides as [o|].
  2:{ exists res. split; [done|]. intros q e _. apply Hres. }
  destruct (bool_decide (o = ∅)) eqn:Ho.
  { exists res. split; [done|]. intros q e _. apply Hres. }
  eexists. split; [reflexivity|].
  intros q e Hov Hq. cbn in Hov.
  rewrite lookup_union, Hov in Hq.
  destruct (res !! q) as [e'|] eqn:Hres'; [|discriminate].
  injection Hq as <-. by eapply Hres.
Qed.

Lemma builtin_presets_resolve_witness :
  exists r,
    ConfigManager.resolve_preset builtin_only "notes-q3" "in.pdf" override_q3 = Ok r.
Proof.
  destruct (builtin_presets_resolve builtin_only "notes-q3" "in.pdf" override_q3
              eq_refl) as (r & Hr & _).
  - by eexists.
  - by exists r.
Defined.
